(** * configify: the type-checked option generator

    A shallow embedding of the generator of [configify] (the second,
    type-checked [main.go] of the repository: [generate], [lowerName],
    [upperName]) and of the [mapType.inc] template, together with the
    properties of the specification that concern them.

    Go strings are byte strings and are modelled by [string]; the set of
    import paths ([map[string]struct{}]) is a [gset string]; the [Defs] table
    of the loaded package ([map[*ast.Ident]types.Object]) is an association
    list, because its keys are identifier occurrences and several of them may
    carry the same name.  Ranging over a Go map visits the entries in an
    unspecified order: the visiting orders are explicit in the model. *)

From Stdlib Require Import ZArith Lia List Ascii String Permutation.
From stdpp Require Import base option list strings gmap fin_maps pretty.

Local Open Scope string_scope.
Local Open Scope list_scope.
Local Open Scope Z_scope.

(** ** Run-time panics *)

Inductive panic : Type :=
| TypeAssertion      (* interface conversion: x.(T) on another dynamic type *)
| NilDereference     (* method call through a nil interface value *)
| IndexOutOfRange    (* a[i] with i >= len(a) *)
| SliceOutOfRange    (* s[i:] with i > len(s) *)
| NilMapAssignment.  (* m[k] = v on a nil map *)

Inductive result (A : Type) : Type :=
| Ok (a : A)
| Panic (p : panic).
Arguments Ok {A} a.
Arguments Panic {A} p.

Definition bind {A B} (r : result A) (k : A -> result B) : result B :=
  match r with
  | Ok a => k a
  | Panic p => Panic p
  end.

Notation "'let!' x ':=' r 'in' k" := (bind r (fun x => k))
  (at level 10, x pattern, r at level 100, k at level 200).

(** ** Go string primitives used by the generator *)

Module GoString.

(** [len(s)] *)
Definition len (s : string) : Z := Z.of_nat (String.length s).

(** [s[lo:hi]]; panics unless [0 <= lo <= hi <= len(s)]. *)
Definition slice (s : string) (lo hi : Z) : result string :=
  if (0 <=? lo) && (lo <=? hi) && (hi <=? len s)
  then Ok (substring (Z.to_nat lo) (Z.to_nat (hi - lo)) s)
  else Panic SliceOutOfRange.

(** [s[lo:]] *)
Definition sliceFrom (s : string) (lo : Z) : result string :=
  slice s lo (len s).

(** [strings.LastIndex(s, sep)]: the index of the last instance of [sep]
    in [s], or -1. *)
Fixpoint lastIndexFrom (s sep : string) (i acc : Z) : Z :=
  let acc' := if String.prefix sep s then i else acc in
  match s with
  | EmptyString => acc'
  | String _ s' => lastIndexFrom s' sep (i + 1) acc'
  end.

Definition LastIndex (s sep : string) : Z := lastIndexFrom s sep 0 (-1).

End GoString.

(** ** UTF-8 and [unicode] case mapping

    [[]rune(name)] decodes the bytes of [name] as UTF-8 (an invalid byte
    decodes to U+FFFD and has width 1) and [string(a)] encodes the runes
    again (a rune that is no Unicode scalar value is encoded as U+FFFD). *)

Module Utf8.

Definition rune := Z.

Definition RuneError : rune := 0xFFFD.
Definition MaxRune : rune := 0x10FFFF.
Definition MaxASCII : rune := 0x7F.

Definition byteZ (c : ascii) : Z := Z.of_N (N_of_ascii c).
Definition asciiZ (z : Z) : ascii := ascii_of_N (Z.to_N z).

Definition cont (b : Z) : bool := (0x80 <=? b) && (b <=? 0xBF).

(** The second byte that a leading byte of a 3- or 4-byte sequence
    accepts (the [acceptRanges] of package [unicode/utf8]). *)
Definition accept3 (b0 b1 : Z) : bool :=
  if b0 =? 0xE0 then (0xA0 <=? b1) && (b1 <=? 0xBF)
  else if b0 =? 0xED then (0x80 <=? b1) && (b1 <=? 0x9F)
  else (0xE0 <=? b0) && (b0 <=? 0xEF) && cont b1.

Definition accept4 (b0 b1 : Z) : bool :=
  if b0 =? 0xF0 then (0x90 <=? b1) && (b1 <=? 0xBF)
  else if b0 =? 0xF4 then (0x80 <=? b1) && (b1 <=? 0x8F)
  else (0xF0 <=? b0) && (b0 <=? 0xF4) && cont b1.

Definition lead2 (b0 : Z) : bool := (0xC2 <=? b0) && (b0 <=? 0xDF).

Definition rune2 (b0 b1 : Z) : rune := (b0 mod 32) * 64 + b1 mod 64.
Definition rune3 (b0 b1 b2 : Z) : rune :=
  (b0 mod 16) * 4096 + (b1 mod 64) * 64 + b2 mod 64.
Definition rune4 (b0 b1 b2 b3 : Z) : rune :=
  (b0 mod 8) * 262144 + (b1 mod 64) * 4096 + (b2 mod 64) * 64 + b3 mod 64.

(** [[]rune(s)] *)
Fixpoint runes (s : string) : list rune :=
  match s with
  | EmptyString => []
  | String c0 s1 =>
    let b0 := byteZ c0 in
    if b0 <? 0x80 then b0 :: runes s1
    else
      match s1 with
      | EmptyString => RuneError :: runes s1
      | String c1 s2 =>
        let b1 := byteZ c1 in
        if lead2 b0 && cont b1 then rune2 b0 b1 :: runes s2
        else
          match s2 with
          | EmptyString => RuneError :: runes s1
          | String c2 s3 =>
            let b2 := byteZ c2 in
            if accept3 b0 b1 && cont b2 then rune3 b0 b1 b2 :: runes s3
            else
              match s3 with
              | EmptyString => RuneError :: runes s1
              | String c3 s4 =>
                let b3 := byteZ c3 in
                if accept4 b0 b1 && cont b2 && cont b3
                then rune4 b0 b1 b2 b3 :: runes s4
                else RuneError :: runes s1
              end
          end
      end
  end.

(** A Unicode scalar value: what [utf8.ValidRune] accepts. *)
Definition ValidRune (r : rune) : bool :=
  ((0 <=? r) && (r <? 0xD800)) || ((0xDFFF <? r) && (r <=? MaxRune)).

Definition bytes3 (r : rune) : list Z :=
  [0xE0 + r / 4096; 0x80 + (r / 64) mod 64; 0x80 + r mod 64].

(** [utf8.AppendRune(nil, r)] *)
Definition encodeRune (r : rune) : list Z :=
  if (0 <=? r) && (r <=? 0x7F) then [r]
  else if (0 <=? r) && (r <=? 0x7FF) then [0xC0 + r / 64; 0x80 + r mod 64]
  else if negb (ValidRune r) then bytes3 RuneError
  else if r <=? 0xFFFF then bytes3 r
  else [0xF0 + r / 262144; 0x80 + (r / 4096) mod 64;
        0x80 + (r / 64) mod 64; 0x80 + r mod 64].

Definition ofBytes (bs : list Z) : string :=
  string_of_list_ascii (List.map asciiZ bs).

(** [string(a)] for [a []rune] *)
Definition ofRunes (a : list rune) : string :=
  ofBytes (List.concat (List.map encodeRune a)).

End Utf8.

(** ** Package [unicode]: simple case mapping

    Below U+0080 [unicode.ToLower] and [unicode.ToUpper] are the ASCII
    mappings written out in the library; above, they look the rune up in the
    [CaseRanges] table, which is an input of the model ([caseTo]). *)

Inductive unicodeCase : Type := UpperCase | LowerCase.

Section Naming.

Variable caseTo : unicodeCase -> Utf8.rune -> Utf8.rune.

Definition ToLower (r : Utf8.rune) : Utf8.rune :=
  if r <=? Utf8.MaxASCII then
    if (65 <=? r) && (r <=? 90) then r + 32 else r
  else caseTo LowerCase r.

Definition ToUpper (r : Utf8.rune) : Utf8.rune :=
  if r <=? Utf8.MaxASCII then
    if (97 <=? r) && (r <=? 122) then r - 32 else r
  else caseTo UpperCase r.

(** [lowerName]: [a := []rune(name); a[0] = unicode.ToLower(a[0]);
    return string(a)] *)
Definition lowerName (name : string) : result string :=
  match Utf8.runes name with
  | [] => Panic IndexOutOfRange
  | a0 :: a => Ok (Utf8.ofRunes (ToLower a0 :: a))
  end.

(** [upperName] *)
Definition upperName (name : string) : result string :=
  match Utf8.runes name with
  | [] => Panic IndexOutOfRange
  | a0 :: a => Ok (Utf8.ofRunes (ToUpper a0 :: a))
  end.

End Naming.

(** ** Package [go/types]: the part of the type-checker's data the generator
    reads

    A [Named] type carries its declaring package ([None] for the universe,
    as for [error]), its name and its underlying type.  An [Object] is what
    the [Defs] table and the accessors [Struct.Field], [Interface.Method],
    [Signature.Params] hand out: a kind, the declaring package, a name, a
    type and, for struct fields, the embedded flag.  A [TypeParam] carries
    its name and its constraint.  Struct tags, variadic signatures and the
    types an interface embeds are left out. *)

Module types.

Record Package : Type := mkPackage { Path : string; PkgName : string }.

#[global] Instance Package_eq_dec : EqDecision Package.
Proof. solve_decision. Defined.

Inductive ChanDir : Type := SendRecv | SendOnly | RecvOnly.

Inductive ObjKind : Type :=
| TypeNameObj | VarObj | FuncObj | ConstObj | PkgNameObj | LabelObj.

Inductive Typ : Type :=
| Basic (name : string)
| Array (len : Z) (elem : Typ)
| Slice (elem : Typ)
| Struct (fields : list Object)
| Pointer (elem : Typ)
| Signature (params results : list Object)
| Interface (methods : list Object)
| Map (key elem : Typ)
| Chan (dir : ChanDir) (elem : Typ)
| Named (pkg : option Package) (name : string) (underlying : Typ)
| TypeParam (name : string) (constraint : Typ)
with Object : Type :=
| mkObject (kind : ObjKind) (pkg : option Package) (name : string)
           (typ : Typ) (embedded : bool).

Definition Kind (o : Object) : ObjKind := let (k, _, _, _, _) := o in k.
Definition Pkg (o : Object) : option Package := let (_, p, _, _, _) := o in p.
Definition Name (o : Object) : string := let (_, _, n, _, _) := o in n.
Definition TypeOf (o : Object) : Typ := let (_, _, _, t, _) := o in t.
Definition Embedded (o : Object) : bool := let (_, _, _, _, e) := o in e.

(** [t.Underlying()]: a named type resolves to the type of its
    declaration; the underlying type of a type parameter is always an
    interface, the underlying interface of its constraint, or, for a
    constraint that is no interface, the implicit interface around it
    (here without members, and empty too where the constraint is itself a
    type parameter, which the type-checker rejects); every other type is
    its own underlying type. *)
Fixpoint Underlying (t : Typ) : Typ :=
  match t with
  | Named _ _ u => Underlying u
  | TypeParam _ bound =>
    match bound with
    | TypeParam _ _ => Interface []
    | _ =>
      match Underlying bound with
      | Interface ms => Interface ms
      | _ => Interface []
      end
    end
  | _ => t
  end.

(** [types.RelativeTo(pkg)]: the qualifier that leaves the members of
    [pkg] unqualified and writes every other package as its path. *)
Definition RelativeTo (pkg : option Package) (other : Package) : string :=
  if decide (pkg = Some other) then "" else Path other.

(** The dynamic type of a [types.Type] value, as [%T] prints it. *)
Definition dynamicType (t : Typ) : string :=
  match t with
  | Basic _ => "*types.Basic"
  | Array _ _ => "*types.Array"
  | Slice _ => "*types.Slice"
  | Struct _ => "*types.Struct"
  | Pointer _ => "*types.Pointer"
  | Signature _ _ => "*types.Signature"
  | Interface _ => "*types.Interface"
  | Map _ _ => "*types.Map"
  | Chan _ _ => "*types.Chan"
  | Named _ _ _ => "*types.Named"
  | TypeParam _ _ => "*types.TypeParam"
  end.

Section TypeString.

Variable qf : Package -> string.

(** [types.TypeString(t, qf)]; a type parameter is written as its name
    (the remark the library adds to a name that shadows a predeclared one
    is left out). *)
Fixpoint TypeString (t : Typ) : string :=
  let var := fun (o : Object) =>
    match o with
    | mkObject _ _ n ty emb =>
      (if emb || String.eqb n "" then "" else n +:+ " ") +:+ TypeString ty
    end in
  let tuple := fun (vs : list Object) =>
    "(" +:+ String.concat ", " (List.map var vs) +:+ ")" in
  let signature := fun (ps rs : list Object) =>
    tuple ps +:+
    match rs with
    | [] => ""
    | [mkObject _ _ "" ty _] => " " +:+ TypeString ty
    | _ => " " +:+ tuple rs
    end in
  match t with
  | Basic n => n
  | Array len e => "[" +:+ pretty len +:+ "]" +:+ TypeString e
  | Slice e => "[]" +:+ TypeString e
  | Struct fs =>
    "struct{" +:+ String.concat "; " (List.map var fs) +:+ "}"
  | Pointer e => "*" +:+ TypeString e
  | Signature ps rs => "func" +:+ signature ps rs
  | Interface ms =>
    "interface{" +:+
    String.concat "; "
      (List.map (fun m =>
         match m with
         | mkObject _ _ n (Signature ps rs) _ => n +:+ signature ps rs
         | mkObject _ _ n ty _ => n +:+ TypeString ty
         end) ms) +:+ "}"
  | Map k e => "map[" +:+ TypeString k +:+ "]" +:+ TypeString e
  | Chan SendRecv (Chan RecvOnly e as c) => "chan (" +:+ TypeString c +:+ ")"
  | Chan SendRecv e => "chan " +:+ TypeString e
  | Chan SendOnly e => "chan<- " +:+ TypeString e
  | Chan RecvOnly e => "<-chan " +:+ TypeString e
  | Named p n _ =>
    match p with
    | Some p =>
      let s := qf p in
      if String.eqb s "" then n else s +:+ "." +:+ n
    | None => n
    end
  | TypeParam n _ => n
  end.

End TypeString.

End types.

(** ** Package [text/template]: the actions the templates use

    A template is a sequence of text, [{{.key}}] and
    [{{range .key}} ... {{.}} ... {{end}}] nodes, executed against a map.
    A missing key prints as [<no value>]; ranging over a missing key runs
    the body zero times; ranging over a string is an execution error, which
    ends the output at that point ([generate] drops the error value). *)

Module template.

Inductive value : Type :=
| Str (s : string)
| Strs (l : list string).

Inductive elemNode : Type :=
| EText (s : string)
| EDot.

Inductive node : Type :=
| Text (s : string)
| Field (key : string)
| Range (key : string) (body : list elemNode).

Definition Template : Type := list node.

Definition show (v : value) : string :=
  match v with
  | Str s => s
  | Strs l => "[" +:+ String.concat " " l +:+ "]"
  end.

Definition execElem (dot : string) (n : elemNode) : string :=
  match n with
  | EText s => s
  | EDot => dot
  end.

Definition execBody (body : list elemNode) (dot : string) : string :=
  String.concat "" (List.map (execElem dot) body).

(** The text a node writes, and whether execution goes on after it. *)
Definition execNode (data : gmap string value) (n : node) : string * bool :=
  match n with
  | Text s => (s, true)
  | Field k =>
    (match data !! k with Some v => show v | None => "<no value>" end, true)
  | Range k body =>
    match data !! k with
    | None => ("", true)
    | Some (Strs l) => (String.concat "" (List.map (execBody body) l), true)
    | Some (Str _) => ("", false)
    end
  end.

Fixpoint exec (data : gmap string value) (t : Template) : string :=
  match t with
  | [] => ""
  | n :: t' =>
    let (out, continue) := execNode data n in
    if continue then out +:+ exec data t' else out
  end.

(** [t.Execute(&buf, data)], the returned error being ignored. *)
Definition Execute (buf : string) (t : Template) (data : gmap string value)
  : string :=
  buf +:+ exec data t.

End template.

Import types template.

(** ** The templates

    [nl], [tab] and [dq] are the line feed, the tabulator and the double
    quote. *)

Definition nl : string := String "010"%char "".
Definition tab : string := String "009"%char "".
Definition dq : string := String "034"%char "".

(** [mapType.inc], as it is in the repository. *)
Definition templateMapType : Template :=
  [ Text "type "; Field "nameLower"; Text "Option "; Field "origType"; Text nl;
    Text "func (o "; Field "nameLower"; Text "Option) Apply(c *config ) {";
    Text nl;
    Text tab; Text "if c."; Field "origName"; Text " == nil {"; Text nl;
    Text tab; Text tab; Text "c."; Field "origName"; Text " = ";
    Field "origType"; Text "(o)"; Text nl;
    Text tab; Text "}"; Text nl;
    Text tab; Text "for k,v := range o {"; Text nl;
    Text tab; Text tab; Text "c."; Field "origName"; Text "[k] = v"; Text nl;
    Text tab; Text "}"; Text nl;
    Text "}"; Text nl;
    Text "func With"; Field "nameUpper"; Text "(m "; Field "origType";
    Text ") Option { return "; Field "nameLower"; Text "Option(m) }"; Text nl;
    Text nl ].

(** Modelled from the spec: [header.inc] is not among the sources.  The
    header is the package clause, the import block with one line per import
    path, the constructor [New], the method [Apply] folding the options in
    call order, and the [Option] interface (sections 4.3 and 6, and the
    example of the README). *)
Definition templateHeader : Template :=
  [ Text "package "; Field "package"; Text nl; Text nl;
    Text "import ("; Text nl;
    Range "imports" [EText tab; EText dq; EDot; EText dq; EText nl];
    Text ")"; Text nl; Text nl;
    Text "func New(options ...Option) *"; Field "cfgType"; Text " {"; Text nl;
    Text tab; Text "cfg := &"; Field "cfgType"; Text "{}"; Text nl;
    Text tab; Text "cfg.Apply(options...)"; Text nl;
    Text tab; Text "return cfg"; Text nl;
    Text "}"; Text nl;
    Text "func (c *"; Field "cfgType"; Text ") Apply(options ...Option) {";
    Text nl;
    Text tab; Text "for _, option := range options {"; Text nl;
    Text tab; Text tab; Text "option.Apply(c)"; Text nl;
    Text tab; Text "}"; Text nl;
    Text "}"; Text nl; Text nl;
    Text "type Option interface {"; Text nl;
    Text tab; Text "Apply("; Text "*"; Field "cfgType"; Text ")"; Text nl;
    Text "}"; Text nl; Text nl ].

(** The three declarations every field template consists of: the private
    option-carrier type, its [Apply] method with the given body, and the
    exported factory. *)
Definition optionTemplate (applyBody : Template) : Template :=
  ([ Text "type "; Field "nameLower"; Text "Option "; Field "origType"; Text nl;
     Text "func (o "; Field "nameLower"; Text "Option) Apply(c *config ) {" ]
   ++ applyBody ++
   [ Text "}"; Text nl;
     Text "func With"; Field "nameUpper"; Text "(m "; Field "origType";
     Text ") Option { return "; Field "nameLower"; Text "Option(m) }"; Text nl;
     Text nl ])%list.

Definition assignBody : Template :=
  [ Text "c."; Field "origName"; Text " = "; Field "origType"; Text "(o)" ].

(** Modelled from the spec: [baseType.inc] is not among the sources.  A
    private option type aliasing the field's type, an [Apply] that assigns
    the field directly, and the exported factory (section 4.3, scalar). *)
Definition templateBaseType : Template := optionTemplate assignBody.

(** Modelled from the spec: [pointerType.inc] is not among the sources.
    The factory takes the pointee by value and [Apply] stores a pointer to
    a private copy of it (section 4.3, pointer). *)
Definition templatePointerType : Template :=
  optionTemplate
    [ Text nl; Text tab; Text "v := "; Field "origType"; Text "(o)"; Text nl;
      Text tab; Text "c."; Field "origName"; Text " = &v"; Text nl ].

(** Modelled from the spec: [sliceType.inc] is not among the sources.
    Same shape as the scalar template; the new slice replaces the old one
    (section 4.3, slice). *)
Definition templateSliceType : Template := optionTemplate assignBody.

(** Modelled from the spec: [interfaceType.inc] is not among the sources.
    Same shape as the scalar template (section 4.3, interface). *)
Definition templateInterfaceType : Template := optionTemplate assignBody.

(** ** The generator ([main.go], type-checked version) *)

Inductive ValueType : Type :=
| baseType
| pointerType
| sliceType
| mapType
| interfaceType.

#[global] Instance ValueType_eq_dec : EqDecision ValueType.
Proof. solve_decision. Defined.

(** [Value] represents a declared field. *)
Record Value : Type := mkValue {
  originalName : string;
  originalType : string;
  valueType : ValueType
}.

(** An identifier occurrence ([*ast.Ident]): its position tells apart two
    occurrences of one name. *)
Record Ident : Type := mkIdent { NamePos : Z; IdentName : string }.

(** The [Package] of [main.go]; [defs] is [TypesInfo.Defs], whose value is
    [None] where the table holds a nil object (the package clause, the
    symbolic variable of a type switch). *)
Record Package : Type := mkPackage {
  name : string;
  defs : list (Ident * option Object)
}.

Record Generator : Type := mkGenerator {
  buf : string;
  pkg : Package
}.

(** The arguments of one call
    [fmt.Printf("%s - %s - %T %#v\n", field.Name(), typeString, typ, typ)]. *)
Record Diagnostic : Type := mkDiagnostic {
  diagField : string;
  diagTypeString : string;
  diagTyp : Typ
}.

(** What the loops of [generate] accumulate: [values], [imports], and the
    lines printed on standard output. *)
Record Collected : Type := mkCollected {
  values : list Value;
  imports : gset string;
  stdout : list Diagnostic
}.

Definition collected0 : Collected :=
  {| values := []; imports := ∅; stdout := [] |}.

(** The switch on [field.Type().Underlying()]: the value type of a
    recognised shape. *)
Definition classify (u : Typ) : option ValueType :=
  match u with
  | Basic _ => Some baseType
  | Array _ _ => Some baseType
  | Slice _ => Some sliceType
  | Map _ _ => Some mapType
  | Signature _ _ => Some baseType
  | Pointer _ => Some pointerType
  | Interface _ => Some interfaceType
  | Struct _ => Some baseType
  | _ => None
  end.

(** The import path and the type text of a field before the switch:
    [imp] is what precedes the last ["."], [typeString] what follows the
    last ["/"]. *)
Definition splitTypeString (typeString : string) : result (string * string) :=
  let indx := GoString.LastIndex typeString "." in
  let! imp := (if 0 <? indx then GoString.slice typeString 0 indx else Ok "") in
  let indx := GoString.LastIndex typeString "/" in
  let! typeString := (if 0 <? indx then GoString.sliceFrom typeString (indx + 1)
                      else Ok typeString) in
  Ok (imp, typeString).

(** The two results of [splitTypeString], as total functions: the text
    before the last ["."] (empty unless that index is positive) and the
    text after the last ["/"] (the whole text unless that index is
    positive). *)
Definition impOf (typeString : string) : string :=
  let indx := GoString.LastIndex typeString "." in
  if 0 <? indx then substring 0 (Z.to_nat indx) typeString else "".

Definition textOf (typeString : string) : string :=
  let indx := GoString.LastIndex typeString "/" in
  if 0 <? indx
  then substring (Z.to_nat (indx + 1))
                 (Z.to_nat (GoString.len typeString - (indx + 1))) typeString
  else typeString.

(** [types.TypeString(field.Type(), types.RelativeTo(field.Pkg()))] *)
Definition fieldTypeString (field : Object) : string :=
  TypeString (RelativeTo (Pkg field)) (TypeOf field).

(** What the pointer case of the switch does to [imp] and [typeString]. *)
Definition stripPointer (imp typeString : string) : result (string * string) :=
  let! imp := (if 0 <? GoString.len imp then GoString.sliceFrom imp 1
               else Ok imp) in
  let! typeString := GoString.sliceFrom typeString 1 in
  Ok (imp, typeString).

Definition record (field : Object) (imp typeString : string) (vt : ValueType)
    (st : Collected) : Collected :=
  {| values := values st ++ [ {| originalName := Name field;
                                 originalType := typeString;
                                 valueType := vt |} ];
     imports := if 0 <? GoString.len imp then {[ imp ]} ∪ imports st
                else imports st;
     stdout := stdout st |}.

(** The body of the loop over the fields of the struct. *)
Definition fieldStep (field : Object) (st : Collected) : result Collected :=
  if Embedded field then Ok st
  else
    let typeString := fieldTypeString field in
    let! (imp, typeString) := splitTypeString typeString in
    let typ := Underlying (TypeOf field) in
    match classify typ with
    | Some pointerType =>
      let! (imp, typeString) := stripPointer imp typeString in
      Ok (record field imp typeString pointerType st)
    | Some vt => Ok (record field imp typeString vt st)
    | None =>
      Ok {| values := values st;
            imports := imports st;
            stdout := stdout st ++ [ {| diagField := Name field;
                                        diagTypeString := typeString;
                                        diagTyp := typ |} ] |}
    end.

(** [for i := 0; i < struc.NumFields(); i++ { ... }] *)
Fixpoint structLoop (fields : list Object) (st : Collected) : result Collected :=
  match fields with
  | [] => Ok st
  | field :: rest => let! st' := fieldStep field st in structLoop rest st'
  end.

(** The two unchecked type assertions on [v.Type()]: to a named type, and
    of its underlying type to a struct type. *)
Definition namedStruct (v : option Object) : result (list Object) :=
  match v with
  | None => Panic NilDereference
  | Some o =>
    match TypeOf o with
    | Named _ _ _ =>
      match Underlying (TypeOf o) with
      | Struct fields => Ok fields
      | _ => Panic TypeAssertion
      end
    | _ => Panic TypeAssertion
    end
  end.

(** The body of the loop over [g.pkg.defs]. *)
Definition defStep (typeName : string) (d : Ident * option Object)
    (st : Collected) : result Collected :=
  if String.eqb (IdentName (fst d)) typeName then
    let! fields := namedStruct (snd d) in structLoop fields st
  else Ok st.

(** The loop over [g.pkg.defs], the entries being visited in the order
    [visit]. *)
Fixpoint defsLoop (typeName : string) (visit : list (Ident * option Object))
    (st : Collected) : result Collected :=
  match visit with
  | [] => Ok st
  | d :: rest => let! st' := defStep typeName d st in defsLoop typeName rest st'
  end.

(** The templates by value type.  No entry is made for [mapType]. *)
Definition temps (vt : ValueType) : option Template :=
  match vt with
  | baseType => Some templateBaseType
  | pointerType => Some templatePointerType
  | sliceType => Some templateSliceType
  | interfaceType => Some templateInterfaceType
  | mapType => None
  end.

Section Generate.

Variable caseTo : unicodeCase -> Utf8.rune -> Utf8.rune.

(** The map handed to a field template. *)
Definition valueData (value : Value) : result (gmap string template.value) :=
  let! lower := lowerName caseTo (originalName value) in
  let! upper := upperName caseTo (originalName value) in
  Ok (<["origName" := Str (originalName value)]>
      (<["nameLower" := Str lower]>
      (<["nameUpper" := Str upper]>
      (<["origType" := Str (originalType value)]> ∅)))).

(** The body of the loop over [values]. *)
Definition valueStep (value : Value) (buf : string) : result string :=
  match temps (valueType value) with
  | None => Ok buf
  | Some temp =>
    let! data := valueData value in
    Ok (Execute buf temp data)
  end.

Fixpoint valuesLoop (vs : list Value) (buf : string) : result string :=
  match vs with
  | [] => Ok buf
  | value :: rest => let! buf' := valueStep value buf in valuesLoop rest buf'
  end.

Definition headerData (g : Generator) (typeName : string)
    (importList : list string) : gmap string template.value :=
  <["package" := Str (name (pkg g))]>
  (<["cfgType" := Str typeName]>
  (<["imports" := Strs importList]> ∅)).

(** What one run leaves: the generator's buffer and standard output. *)
Record Output : Type := mkOutput {
  outBuf : string;
  outStdout : list Diagnostic
}.

(** [generate], the two map iterations being resolved by [visit] (the
    order in which [g.pkg.defs] is ranged over) and [order] (the order in
    which [imports] is ranged over). *)
Definition generateWith (g : Generator) (typeName : string)
    (visit : list (Ident * option Object))
    (order : gset string -> list string) : result Output :=
  let! st := defsLoop typeName visit collected0 in
  let importList := order (imports st) in
  let buf := Execute (buf g) templateHeader (headerData g typeName importList) in
  let! buf := valuesLoop (values st) buf in
  Ok {| outBuf := buf; outStdout := stdout st |}.

(** The runs of [generate]: ranging over a map visits every entry once,
    in an order that may change from run to run. *)
Inductive generate (g : Generator) (typeName : string)
  : result Output -> Prop :=
| generate_run visit order :
    visit ≡ₚ defs (pkg g) ->
    (forall s : gset string, order s ≡ₚ elements s) ->
    generate g typeName (generateWith g typeName visit order).

End Generate.

(** ** Notions used to state the properties *)

(** An identifier, as a Go string, is the UTF-8 encoding of Unicode scalar
    values. *)
Definition scalars (a : list Utf8.rune) : Prop :=
  Forall (fun r => Utf8.ValidRune r = true) a.

(** The classifier assigns the category [vt] to [field]: whatever has been
    collected, the loop body completes and appends one [Value] of that
    value type for the field. *)
Definition categorised (field : Object) (vt : ValueType) : Prop :=
  forall st, exists st' ts,
    fieldStep field st = Ok st'
    /\ values st' = values st ++ [ {| originalName := Name field;
                                      originalType := ts;
                                      valueType := vt |} ].

(** The field is skipped: the loop body completes and appends no
    [Value]. *)
Definition skipped (field : Object) : Prop :=
  forall st, exists st',
    fieldStep field st = Ok st' /\ values st' = values st.

(** Replacing what has been printed so far. *)
Definition setStdout (out : list Diagnostic) (st : Collected) : Collected :=
  {| values := values st; imports := imports st; stdout := out |}.

(** The diagnostic printed for a field of unrecognised shape. *)
Definition diagnosticOf (field : Object) : Diagnostic :=
  {| diagField := Name field;
     diagTypeString := textOf (fieldTypeString field);
     diagTyp := Underlying (TypeOf field) |}.

(** The type of an object is a named type whose underlying type is a
    struct: what the two type assertions of [generate] require. *)
Definition isNamedStruct (t : Typ) : bool :=
  match t with
  | Named _ _ _ =>
    match Underlying t with
    | Struct _ => true
    | _ => false
    end
  | _ => false
  end.

(** The entries of [Defs] that carry the name [typeName]. *)
Definition named (typeName : string) (ds : list (Ident * option Object))
  : list (Ident * option Object) :=
  filter (fun d => IdentName (fst d) = typeName) ds.

(** The body of [Apply] in the fragment of a value: an assignment of the
    converted option, or, for a pointer field, of the address of a copy. *)
Definition applyText (vt : ValueType) (name ty : string) : string :=
  match vt with
  | pointerType =>
    nl +:+ tab +:+ "v := " +:+ ty +:+ "(o)" +:+ nl +:+
    tab +:+ "c." +:+ name +:+ " = &v" +:+ nl
  | _ => "c." +:+ name +:+ " = " +:+ ty +:+ "(o)"
  end.

(** Two runs agree up to the order in which the import set is
    enumerated: they panic alike, or they print the same diagnostics and
    write the header for two enumerations of the import set collected from
    [ds], followed by the same field fragments; where that set has at most
    one path, they are equal. *)
Definition sameUpToImportOrder
    (caseTo : unicodeCase -> Utf8.rune -> Utf8.rune)
    (g : Generator) (typeName : string) (r1 r2 : result Output) : Prop :=
  match r1, r2 with
  | Ok o1, Ok o2 =>
    outStdout o1 = outStdout o2
    /\ exists st body il1 il2,
         defsLoop typeName (defs (pkg g)) collected0 = Ok st
         /\ valuesLoop caseTo (values st) "" = Ok body
         /\ il1 ≡ₚ elements (imports st)
         /\ il2 ≡ₚ elements (imports st)
         /\ outBuf o1
            = Execute (buf g) templateHeader (headerData g typeName il1)
              +:+ body
         /\ outBuf o2
            = Execute (buf g) templateHeader (headerData g typeName il2)
              +:+ body
         /\ ((size (imports st) <= 1)%nat -> o1 = o2)
  | Panic p1, Panic p2 => p1 = p2
  | _, _ => False
  end.

(** ** The code [mapType.inc] generates

    For a map-typed field [f] of [config] the template expands to
    [[
      func (o fOption) Apply(c *config) {
        if c.f == nil { c.f = T(o) }
        for k, v := range o { c.f[k] = v }
      }
      func WithF(m T) Option { return fOption(m) }
    ]]
    A Go map value is a reference (or nil): the maps live in a store and
    the field and the options hold locations, so that the assignment
    [c.f = T(o)] makes the field and the option share one map.  The order
    in which [range] produces the entries of [o] is [order]. *)

Module generated.
Section MapOption.

Context {V : Type}.

Definition loc : Type := positive.
Definition mapRef : Type := option loc.
Local Abbreviation store := (gmap loc (gmap string V)) (only parsing).

Variable order : gmap string V -> list (string * V).

(** [len]-like read access: the entries of a map value; a nil map has
  none. *)
Definition entries (m : mapRef) (h : store) : gmap string V :=
match m with
| None => ∅
| Some l => h !!! l
end.

(** [m[k] = v] *)
Definition assign (m : mapRef) (k : string) (v : V) (h : store)
: result store :=
match m with
| None => Panic NilMapAssignment
| Some l => Ok (<[l := <[k := v]> (h !!! l)]> h)
end.

(** [for k, v := range o { c.f[k] = v }], over the entries [kvs]. *)
Fixpoint rangeAssign (f : mapRef) (kvs : list (string * V)) (h : store)
: result store :=
match kvs with
| [] => Ok h
| (k, v) :: rest => let! h' := assign f k v h in rangeAssign f rest h'
end.

(** One assignment [m[k] = v], on the entries of a map. *)
Definition put (m : gmap string V) (kv : string * V) : gmap string V :=
<[fst kv := snd kv]> m.

(** [WithF(m)]: the option is the map value itself. *)
Definition With (m : mapRef) : mapRef := m.

(** [o.Apply(c)]: the state is the field [c.f] and the store. *)
Definition Apply (o : mapRef) (c : mapRef * store) : result (mapRef * store) :=
let (f, h) := c in
let f := match f with None => o | Some _ => f end in
let! h' := rangeAssign f (order (entries o h)) h in
Ok (f, h').

(** [c.Apply(options...)], as the README gives it: [option.Apply(c)] for
    the options in call order. *)
Fixpoint ApplyAll (options : list mapRef) (c : mapRef * store)
: result (mapRef * store) :=
match options with
| [] => Ok c
| o :: rest => let! c' := Apply o c in ApplyAll rest c'
end.

(** [New(options...)], as the README gives it: a zero-valued [config],
    whose field is nil, to which the options are applied. *)
Definition New (options : list mapRef) (h : store) : result (mapRef * store) :=
ApplyAll options (None, h).

End MapOption.
End generated.

(** ** Example packages *)

Module example.

Definition pkgExample : types.Package := types.mkPackage "example" "example".
Definition pkgIo : types.Package := types.mkPackage "io" "io".
Definition pkgBytes : types.Package := types.mkPackage "bytes" "bytes".
Definition pkgSync : types.Package := types.mkPackage "sync" "sync".
Definition pkgErrors : types.Package :=
  types.mkPackage "github.com/pkg/errors" "errors".

Definition var (n : string) (t : Typ) : Object :=
  mkObject VarObj (Some pkgExample) n t false.
Definition param (n : string) (t : Typ) : Object :=
  mkObject VarObj None n t false.

Definition tError : Typ := Named None "error" (Interface []).
Definition tMyType : Typ := Named (Some pkgExample) "MyType" (Basic "string").
Definition tReader : Typ :=
  Named (Some pkgIo) "Reader"
    (Interface [mkObject FuncObj (Some pkgIo) "Read"
       (Signature [param "p" (Slice (Basic "byte"))]
                  [param "n" (Basic "int"); param "err" tError]) false]).
Definition tBuffer : Typ := Named (Some pkgBytes) "Buffer" (Struct []).
Definition tWaitGroup : Typ := Named (Some pkgSync) "WaitGroup" (Struct []).
Definition tFrame : Typ := Named (Some pkgErrors) "Frame" (Basic "uintptr").

(** The fields of [config] in [example/example.go]. *)
Definition configFields : list Object :=
  [ var "myType" tMyType;
    var "color" (Basic "string");
    var "Height" (Basic "int");
    var "array" (Array 3 (Basic "int"));
    var "slice" (Slice (Basic "int"));
    var "maps" (Map (Basic "string") (Basic "string"));
    var "funcs" (Signature [param "" (Basic "int")] [param "" tError]);
    var "point" (Pointer (Basic "string"));
    var "inter" tReader;
    mkObject VarObj (Some pkgExample) "MyType" tMyType true ].

Definition tConfig (fields : list Object) : Typ :=
  Named (Some pkgExample) "config" (Struct fields).

Definition typeDef (pos : Z) (n : string) (t : Typ) : Ident * option Object :=
  (mkIdent pos n, Some (mkObject TypeNameObj (Some pkgExample) n t false)).

Definition fieldDefs (pos : Z) (fields : list Object)
  : list (Ident * option Object) :=
  imap (fun i f => (mkIdent (pos + Z.of_nat i) (Name f), Some f)) fields.

(** What the type-checker records for a file that declares [config] with
    the given fields, and [MyType]: the package clause (a nil object),
    the two type names and the fields, an embedded field being defined by
    the name of its type. *)
Definition packageOf (fields : list Object) : Package :=
  {| name := "example";
     defs := (mkIdent 9 "example", None)
             :: typeDef 40 "config" (tConfig fields)
             :: (fieldDefs 60 fields
                 ++ [typeDef 200 "MyType" tMyType])%list |}.

Definition generatorOf (fields : list Object) : Generator :=
  {| buf := ""; pkg := packageOf fields |}.

(** ASCII-only case tables: nothing above U+007F is mapped. *)
Definition asciiOnly (_ : unicodeCase) (r : Utf8.rune) : Utf8.rune := r.

(** [ch chan int] *)
Definition chanField : Object := var "ch" (Chan SendRecv (Basic "int")).

(** [frame *errors.Frame], with [errors] the package
    [github.com/pkg/errors]; and the same field without the pointer. *)
Definition framePointerField : Object := var "frame" (Pointer tFrame).
Definition frameField : Object := var "frame" tFrame.

(** [maps map[string]string] alone. *)
Definition mapsOnly : list Object :=
  [ var "maps" (Map (Basic "string") (Basic "string")) ].

(** [inter io.Reader] *)
Definition interField : Object := var "inter" tReader.

(** [inter io.Reader; buf bytes.Buffer]: two import paths. *)
Definition twoImports : list Object :=
  [ interField; var "buf" tBuffer ].

(** Two ways of ranging over the import set. *)
Definition ascending (s : gset string) : list string := elements s.
Definition descending (s : gset string) : list string := reverse (elements s).

(** A package that, next to no type of that name, declares
    [func config() {}]. *)
Definition funcNamedConfig : Ident * option Object :=
  (mkIdent 20 "config",
   Some (mkObject FuncObj (Some pkgExample) "config" (Signature [] []) false)).

Definition packageWithFunc : Package :=
  {| name := "example"; defs := [ (mkIdent 9 "example", None); funcNamedConfig ] |}.

Definition generatorWithFunc : Generator :=
  {| buf := ""; pkg := packageWithFunc |}.

(** [type P *string] and a field [p P]. *)
Definition namedPointerField : Object :=
  var "p" (Named (Some pkgExample) "P" (Pointer (Basic "string"))).

(** A package with [type config struct { color string }] and
    [type wrapper struct { config config }]: the field of [wrapper] carries
    the name of the target type and has that type. *)
Definition tConfigColor : Typ := tConfig [var "color" (Basic "string")].

Definition fieldNamedConfig : Ident * option Object :=
  (mkIdent 100 "config", Some (var "config" tConfigColor)).

Definition packageWithField : Package :=
  {| name := "example";
     defs := [ (mkIdent 9 "example", None);
               typeDef 40 "config" tConfigColor;
               (mkIdent 60 "color", Some (var "color" (Basic "string")));
               typeDef 80 "wrapper"
                 (Named (Some pkgExample) "wrapper"
                        (Struct [var "config" tConfigColor]));
               fieldNamedConfig ] |}.

Definition generatorWithField : Generator :=
  {| buf := ""; pkg := packageWithField |}.

(** [type config[T any] struct { x T }]: the field has the bare type
    parameter as its type, and [Defs] has an entry for [T] too. *)
Definition tParam : Typ := TypeParam "T" (Interface []).
Definition paramField : Object := var "x" tParam.

Definition packageGeneric : Package :=
  {| name := "example";
     defs := [ (mkIdent 9 "example", None);
               typeDef 40 "config" (tConfig [paramField]);
               typeDef 47 "T" tParam;
               (mkIdent 70 "x", Some paramField) ] |}.

Definition generatorGeneric : Generator :=
  {| buf := ""; pkg := packageGeneric |}.



(** [color string; ch chan int; inter io.Reader]: a channel field between
    two others. *)
Definition aroundChannel : list Object :=
  [ var "color" (Basic "string"); chanField; interField ].

(** A store with the maps [{"x": 1}] and [{"y": 2}]. *)
Definition mapX : gmap string Z := {[ "x" := 1 ]}.
Definition mapY : gmap string Z := {[ "y" := 2 ]}.
Definition storeXY : gmap generated.loc (gmap string Z) :=
  <[1%positive := mapX]> (<[2%positive := mapY]> ∅).

End example.

(** ** Further notions *)

(** The byte [c] occurs in [s]. *)
Definition occurs (c : ascii) (s : string) : Prop :=
  In c (list_ascii_of_string s).

(** The category the loop body gives a field, if any: none for an embedded
    field and for a field of unrecognised shape. *)
Definition categoryOf (field : Object) : option ValueType :=
  if Embedded field then None else classify (Underlying (TypeOf field)).

(** The field is one the loop body prints a diagnostic for. *)
Definition unrecognised (field : Object) : bool :=
  negb (Embedded field)
  && match classify (Underlying (TypeOf field)) with
     | None => true
     | Some _ => false
     end.

(** The loop body completes on the field: it is embedded, or it is no
    pointer field, or its type text after the cut at the last slash is not
    empty. *)
Definition completes (field : Object) : bool :=
  Embedded field
  || negb (bool_decide (classify (Underlying (TypeOf field)) = Some pointerType))
  || negb (String.eqb (textOf (fieldTypeString field)) "").

(** Running the loop over the fields [k] times. *)
Fixpoint structLoopTimes (k : nat) (fields : list Object) (st : Collected)
  : result Collected :=
  match k with
  | O => Ok st
  | S k' => let! st' := structLoop fields st in structLoopTimes k' fields st'
  end.

(** The text written for a value of category [vt], [name] being the
    field's name, [lower] and [upper] its two forms and [ty] the recorded
    type text: the option type, its [Apply] method and the factory of the
    templates above, and nothing for a map value, for which [generate] has
    no template. *)
Definition fragmentText (vt : ValueType) (name lower upper ty : string)
  : string :=
  match vt with
  | mapType => ""
  | _ =>
    "type " +:+ lower +:+ "Option " +:+ ty +:+ nl +:+
    "func (o " +:+ lower +:+ "Option) Apply(c *config ) {" +:+
    applyText vt name ty +:+ "}" +:+ nl +:+
    "func With" +:+ upper +:+ "(m " +:+ ty +:+ ") Option { return " +:+
    lower +:+ "Option(m) }" +:+ nl +:+ nl
  end.

Section Fragments.

Variable caseTo : unicodeCase -> Utf8.rune -> Utf8.rune.

(** The fragment of one value.  The two forms of the name are asked for
    only where there is a template: a map value gives the empty text
    whatever its name. *)
Definition fragmentOf (v : Value) : result string :=
  match valueType v with
  | mapType => Ok ""
  | vt =>
    let! lower := lowerName caseTo (originalName v) in
    let! upper := upperName caseTo (originalName v) in
    Ok (fragmentText vt (originalName v) lower upper (originalType v))
  end.

(** The fragments of a list of values, one after the other. *)
Fixpoint fragments (vs : list Value) : result string :=
  match vs with
  | [] => Ok ""
  | v :: rest =>
    let! fragment := fragmentOf v in
    let! body := fragments rest in
    Ok (fragment +:+ body)
  end.

End Fragments.

(** ** Package [go/ast]: the syntax the first generator reads

    A field declaration has a list of names (none for an embedded field,
    several for [a, b int]) and a type expression.  A [Tree] is a node of a
    file with its children in source order; the only nodes the generator
    looks at are identifiers, whose [Obj], when resolved, gives the
    declaration of the name. *)

Module ast.

#[warnings="-register-all"]
Inductive Expr : Type :=
| Ident (Name : string)
| BasicLit (Value : string)
| Ellipsis (Elt : option Expr)
| ParenExpr (X : Expr)
| SelectorExpr (X : Expr) (Sel : string)
| StarExpr (X : Expr)
| ArrayType (Len : option Expr) (Elt : Expr)
| StructType (Fields : list Field)
| FuncType (Params Results : list Field)
| InterfaceType (Methods : list Field)
| MapType (Key Value : Expr)
| ChanType (Value : Expr)
with Field : Type :=
| mkField (Names : list string) (Typ : Expr).

Definition Names (f : Field) : list string := let (ns, _) := f in ns.
Definition FieldType (f : Field) : Expr := let (_, t) := f in t.

(** The dynamic type of an expression, as [%T] prints it. *)
Definition dynamicTypeOf (e : Expr) : string :=
  match e with
  | Ident _ => "*ast.Ident"
  | BasicLit _ => "*ast.BasicLit"
  | Ellipsis _ => "*ast.Ellipsis"
  | ParenExpr _ => "*ast.ParenExpr"
  | SelectorExpr _ _ => "*ast.SelectorExpr"
  | StarExpr _ => "*ast.StarExpr"
  | ArrayType _ _ => "*ast.ArrayType"
  | StructType _ => "*ast.StructType"
  | FuncType _ _ => "*ast.FuncType"
  | InterfaceType _ => "*ast.InterfaceType"
  | MapType _ _ => "*ast.MapType"
  | ChanType _ => "*ast.ChanType"
  end.

(** What [ident.Obj.Decl] holds: a type specification, or a declaration of
    another kind (a field, a value specification, a function, ...). *)
Inductive Decl : Type :=
| TypeSpec (Name : string) (Typ : Expr)
| OtherDecl.

(** A node: an identifier with its object ([None] when [Obj] is nil), or a
    node of another kind. *)
Inductive Node : Type :=
| IdentNode (Name : string) (Obj : option Decl)
| OtherNode.

#[warnings="-register-all"]
Inductive Tree : Type :=
| mkTree (node : Node) (children : list Tree).

Section Inspect.

Context {S : Type}.
Variable f : option Node -> S -> result (bool * S).

(** [ast.Inspect(t, f)]: [f] is called on the node; if it returns true the
    children are inspected in order and [f] is called on nil. *)
Fixpoint Inspect (t : Tree) (s : S) : result S :=
  match t with
  | mkTree n children =>
    let! (more, s1) := f (Some n) s in
    if more
    then
      let! s2 :=
        (fix each (ts : list Tree) (s : S) : result S :=
           match ts with
           | [] => Ok s
           | t' :: ts' => let! s' := Inspect t' s in each ts' s'
           end) children s1 in
      let! (_, s3) := f None s2 in
      Ok s3
    else Ok s1
  end.

End Inspect.

(** The arguments of the calls of an inspection in which every call
    returns true. *)
Fixpoint calls (t : Tree) : list (option Node) :=
  match t with
  | mkTree n children =>
    Some n :: List.concat (List.map calls children) ++ [None]
  end.

End ast.

(** ** The syntax-only generator (the first [main.go]) *)

Module syntax.

Section FromField.

(** [printer.Fprint] of an expression, as text. *)
Variable Fprint : ast.Expr -> string.

(** The zero [Value]. *)
Definition zeroValue : Value :=
  {| originalName := ""; originalType := ""; valueType := baseType |}.

(** [fromField]: the value of a field declaration and the error, if any. *)
Definition fromField (field : ast.Field) : Value * option string :=
  match ast.Names field with
  | [name] =>
    match ast.FieldType field with
    | ast.Ident n =>
      ({| originalName := name; originalType := n; valueType := baseType |},
       None)
    | ast.ArrayType len _ as ft =>
      ({| originalName := name; originalType := Fprint ft;
          valueType := match len with Some _ => baseType | None => sliceType end |},
       None)
    | ast.MapType _ _ as ft =>
      ({| originalName := name; originalType := Fprint ft;
          valueType := mapType |}, None)
    | ast.FuncType _ _ as ft =>
      ({| originalName := name; originalType := Fprint ft;
          valueType := baseType |}, None)
    | ast.StarExpr x =>
      ({| originalName := name; originalType := Fprint x;
          valueType := pointerType |}, None)
    | ast.SelectorExpr _ _ as ft =>
      (zeroValue, Some (ast.dynamicTypeOf ft +:+ " not supported yet"))
    | ft =>
      (zeroValue,
       Some ("Unknown type " +:+ ast.dynamicTypeOf ft +:+ " not supported yet"))
    end
  | _ => (zeroValue, Some "No support for embedded types currently")
  end.

(** What a file accumulates: [f.values] and the lines written by
    [log.Printf]. *)
Record Walk : Type := mkWalk {
  walkValues : list Value;
  walkLog : list string
}.

(** The loop of [structType] over [st.Fields.List]: an error is logged
    as a warning, a value without error is appended. *)
Fixpoint fieldsLoop (fields : list ast.Field) (w : Walk) : Walk :=
  match fields with
  | [] => w
  | field :: rest =>
    match fromField field with
    | (_, Some e) =>
      fieldsLoop rest {| walkValues := walkValues w;
                         walkLog := walkLog w ++ ["Warning: " +:+ e] |}
    | (val, None) =>
      fieldsLoop rest {| walkValues := walkValues w ++ [val];
                         walkLog := walkLog w |}
    end
  end.

(** [structType]: the callback of the inspection.  The type assertion of
    [ts.Type] to a struct type is not checked: on another type the
    selection [st.Fields] dereferences nil. *)
Definition structType (typeName : string) (node : option ast.Node) (w : Walk)
  : result (bool * Walk) :=
  match node with
  | None => Ok (true, w)
  | Some (ast.IdentNode name obj) =>
    if negb (String.eqb name typeName) then Ok (true, w)
    else
      match obj with
      | None => Ok (true, w)
      | Some (ast.TypeSpec _ (ast.StructType fields)) =>
        Ok (true, fieldsLoop fields {| walkValues := []; walkLog := walkLog w |})
      | Some (ast.TypeSpec _ _) => Panic NilDereference
      | Some ast.OtherDecl => Ok (true, w)
      end
  | Some ast.OtherNode => Ok (true, w)
  end.

(** The first loop of [generate]: over the files of the package, a nil
    [file.file] being passed over. *)
Fixpoint collectFiles (typeName : string) (files : list (option ast.Tree))
    (values : list Value) (log : list string)
  : result (list Value * list string) :=
  match files with
  | [] => Ok (values, log)
  | file :: rest =>
    match file with
    | Some t =>
      let! w := ast.Inspect (structType typeName) t
                  {| walkValues := []; walkLog := log |} in
      collectFiles typeName rest (values ++ walkValues w) (walkLog w)
    | None => collectFiles typeName rest values log
    end
  end.

(** The fold of the callback over a list of nodes. *)
Fixpoint visitAll (typeName : string) (nodes : list (option ast.Node))
    (w : Walk) : result Walk :=
  match nodes with
  | [] => Ok w
  | n :: rest =>
    let! (_, w') := structType typeName n w in visitAll typeName rest w'
  end.

(** What the loop over the fields keeps of a field declaration. *)
Definition kept (field : ast.Field) : option Value :=
  match fromField field with
  | (val, None) => Some val
  | (_, Some _) => None
  end.

(** The warning the loop over the fields logs for a field declaration. *)
Definition warning (field : ast.Field) : option string :=
  match fromField field with
  | (_, Some e) => Some ("Warning: " +:+ e)
  | (_, None) => None
  end.

End FromField.

(** The type expressions [fromField] has a case for. *)
Definition supported (e : ast.Expr) : bool :=
  match e with
  | ast.Ident _ | ast.ArrayType _ _ | ast.MapType _ _
  | ast.FuncType _ _ | ast.StarExpr _ => true
  | _ => false
  end.

(** The node is an identifier of the given name that resolves to a type
    specification whose type is something else than a struct type. *)
Definition nonStructSpec (typeName : string) (n : option ast.Node) : bool :=
  match n with
  | Some (ast.IdentNode name (Some (ast.TypeSpec _ ty))) =>
    String.eqb name typeName
    && match ty with ast.StructType _ => false | _ => true end
  | _ => false
  end.

(** The node is an identifier of the given name that resolves to the
    specification of a struct type with the given fields. *)
Definition structSpec (typeName : string) (fields : list ast.Field)
    (n : option ast.Node) : Prop :=
  exists spec,
    n = Some (ast.IdentNode typeName
                (Some (ast.TypeSpec spec (ast.StructType fields)))).

(** The node leaves the walk as it is: it is no identifier of the given
    name that resolves to a type specification. *)
Definition passedOver (typeName : string) (n : option ast.Node) : bool :=
  match n with
  | Some (ast.IdentNode name (Some (ast.TypeSpec _ _))) =>
    negb (String.eqb name typeName)
  | _ => true
  end.

(** How often the callback, called on these nodes in turn, meets an
    identifier of the given name that resolves to a type specification. *)
Definition meetings (typeName : string) (nodes : list (option ast.Node))
  : nat :=
  length (List.filter (fun n => negb (passedOver typeName n)) nodes).

End syntax.

(** ** Package [strings] *)

Module strings.

(** [strings.Split(s, sep)] for a non-empty [sep]: [cur] is the piece
    being read and [skip] the number of bytes of a separator still to be
    passed. *)
Fixpoint splitFrom (s sep : string) (skip : nat) (cur : string) : list string :=
  match s with
  | EmptyString => [cur]
  | String c s' =>
    match skip with
    | S k => splitFrom s' sep k cur
    | O =>
      if String.prefix sep s
      then cur :: splitFrom s' sep (String.length sep - 1) ""
      else splitFrom s' sep 0 (cur +:+ String c "")
    end
  end.

(** [strings.Split(s, sep)]; an empty [sep] splits after each UTF-8
    sequence. *)
Definition Split (s sep : string) : list string :=
  if String.eqb sep ""
  then List.map (fun r => Utf8.ofRunes [r]) (Utf8.runes s)
  else splitFrom s sep 0 "".

(** [strings.Join(elems, sep)] *)
Definition Join (elems : list string) (sep : string) : string :=
  String.concat sep elems.

Definition mapBytes (f : ascii -> ascii) (s : string) : string :=
  string_of_list_ascii (List.map f (list_ascii_of_string s)).

Definition isASCII (s : string) : bool :=
  forallb (fun c => Utf8.byteZ c <? 0x80) (list_ascii_of_string s).

Definition lowerByte (c : ascii) : ascii :=
  if (65 <=? Utf8.byteZ c) && (Utf8.byteZ c <=? 90)
  then Utf8.asciiZ (Utf8.byteZ c + 32) else c.

Section Lower.

Variable caseTo : unicodeCase -> Utf8.rune -> Utf8.rune.

(** [strings.Map(mapping, s)]: a negative rune is dropped. *)
Definition Map (mapping : Utf8.rune -> Utf8.rune) (s : string) : string :=
  Utf8.ofRunes (List.filter (fun r => 0 <=? r) (List.map mapping (Utf8.runes s))).

(** [strings.ToLower(s)]: byte by byte on ASCII text, rune by rune
    otherwise. *)
Definition ToLowerString (s : string) : string :=
  if isASCII s then mapBytes lowerByte s else Map (ToLower caseTo) s.

End Lower.

End strings.

(** ** The command line ([main] and [parsePackage]) *)

Module cmd.

(** [main]: the build tags, split at the commas when [-tags] is given. *)
Definition tagsOf (buildTags : string) : list string :=
  if 0 <? GoString.len buildTags then strings.Split buildTags "," else [].

(** [parsePackage]: the [BuildFlags] of the loader's configuration. *)
Definition BuildFlags (tags : list string) : list string :=
  [ "-tags=" +:+ strings.Join tags " " ].

(** [-tags] with every comma replaced by a space. *)
Definition commasToSpaces (s : string) : string :=
  strings.mapBytes (fun c => if Ascii.eqb c "," then " "%char else c) s.

Section OutputName.

Variable caseTo : unicodeCase -> Utf8.rune -> Utf8.rune.

(** [filepath.Join] of a directory and a file name. *)
Variable filepathJoin : string -> string -> string.

(** [main]: the name of the file written, [output] being the value of the
    [-output] flag and [dir] the directory of the package. *)
Definition outputName (output genType dir : string) : string :=
  if String.eqb output ""
  then filepathJoin dir
         (strings.ToLowerString caseTo (genType +:+ "_string.go"))
  else output.

End OutputName.

End cmd.

(** ** An example file for the syntax-only generator *)

Module exampleSyntax.

(** [color string; a, b int; slice []int; inter io.Reader; MyType;
    ch chan int] *)
Definition structFields : list ast.Field :=
  [ ast.mkField ["color"] (ast.Ident "string");
    ast.mkField ["a"; "b"] (ast.Ident "int");
    ast.mkField ["slice"] (ast.ArrayType None (ast.Ident "int"));
    ast.mkField ["inter"] (ast.SelectorExpr (ast.Ident "io") "Reader");
    ast.mkField [] (ast.Ident "MyType");
    ast.mkField ["ch"] (ast.ChanType (ast.Ident "int")) ].

Definition configSpec : ast.Decl :=
  ast.TypeSpec "config" (ast.StructType structFields).

Definition myTypeSpec : ast.Decl :=
  ast.TypeSpec "MyType" (ast.Ident "string").

Definition leaf (n : ast.Node) : ast.Tree := ast.mkTree n [].

(** A file that declares [config] and [MyType] and then uses [config]
    once more: the file node, the package name, the two declarations, and
    a function that mentions [config]. *)
Definition file : ast.Tree :=
  ast.mkTree ast.OtherNode
    [ leaf (ast.IdentNode "example" None);
      ast.mkTree ast.OtherNode
        [ leaf (ast.IdentNode "config" (Some configSpec));
          ast.mkTree ast.OtherNode
            [ leaf (ast.IdentNode "color" (Some ast.OtherDecl));
              leaf (ast.IdentNode "string" None) ] ];
      ast.mkTree ast.OtherNode
        [ leaf (ast.IdentNode "MyType" (Some myTypeSpec));
          leaf (ast.IdentNode "string" None) ];
      ast.mkTree ast.OtherNode
        [ leaf (ast.IdentNode "config" (Some configSpec)) ] ].

(** A printer that is good enough for the example. *)
Definition print (e : ast.Expr) : string :=
  match e with
  | ast.Ident n => n
  | ast.ArrayType None (ast.Ident n) => "[]" +:+ n
  | _ => "?"
  end.

Definition walk0 : syntax.Walk :=
  {| syntax.walkValues := []; syntax.walkLog := [] |}.

(** [filepath.Join] on a directory without trailing separator. *)
Definition join (dir name : string) : string := dir +:+ "/" +:+ name.

End exampleSyntax.

(** * Properties *)

(** ** The result monad *)

Lemma bind_Ok {A B} (a : A) (k : A -> result B) : bind (Ok a) k = k a.
Proof. reflexivity. Qed.

Lemma bind_inv_Ok {A B} (r : result A) (k : A -> result B) b :
  bind r k = Ok b -> exists a, r = Ok a /\ k a = Ok b.
Proof. destruct r as [a|p]; simpl; [eauto | discriminate]. Qed.

Lemma bind_assoc {A B C} (r : result A) (k : A -> result B) (k' : B -> result C) :
  bind (bind r k) k' = bind r (fun a => bind (k a) k').
Proof. destruct r; reflexivity. Qed.

(** ** Go strings: [strings.LastIndex] stays inside the string *)

Module GoStringFacts.
Import GoString.

Lemma prefix_length sep s :
  String.prefix sep s = true -> (String.length sep <= String.length s)%nat.
Proof.
  revert s. induction sep as [|c sep IH]; intros [|d s]; simpl;
    try lia; try discriminate.
  destruct (Ascii.ascii_dec c d); [|discriminate].
  intros H. apply IH in H. lia.
Qed.

Lemma lastIndexFrom_bounds s sep i acc :
  lastIndexFrom s sep i acc = acc
  \/ i <= lastIndexFrom s sep i acc /\
     lastIndexFrom s sep i acc + len sep <= i + len s.
Proof.
  revert i acc. induction s as [|c s IH]; intros i acc.
  - cbn [lastIndexFrom]. destruct (String.prefix sep "") eqn:E; [|now left].
    right. apply prefix_length in E. unfold len. simpl in *. lia.
  - cbn [lastIndexFrom].
    destruct (IH (i + 1) (if String.prefix sep (String c s) then i else acc))
      as [-> | [Hlo Hhi]].
    + destruct (String.prefix sep (String c s)) eqn:E; [|now left].
      right. apply prefix_length in E. unfold len. simpl in *. lia.
    + right. unfold len in *. simpl String.length. lia.
Qed.

Lemma LastIndex_bounds s sep :
  0 < LastIndex s sep -> LastIndex s sep + len sep <= len s.
Proof.
  unfold LastIndex. intros H.
  destruct (lastIndexFrom_bounds s sep 0 (-1)) as [E | [_ Hhi]]; lia.
Qed.

Lemma len_nonneg s : 0 <= len s.
Proof. unfold len. lia. Qed.

End GoStringFacts.

(** [splitTypeString] never panics: its two slices are in range. *)
Lemma splitTypeString_total typeString :
  splitTypeString typeString = Ok (impOf typeString, textOf typeString).
Proof.
  unfold splitTypeString, impOf, textOf, GoString.sliceFrom, GoString.slice.
  pose proof (GoStringFacts.len_nonneg typeString) as Hlen.
  destruct (0 <? GoString.LastIndex typeString ".") eqn:Hdot.
  - apply Z.ltb_lt in Hdot.
    pose proof (GoStringFacts.LastIndex_bounds typeString "." Hdot) as Hb.
    change (GoString.len ".") with 1 in Hb.
    replace ((0 <=? 0) && (0 <=? GoString.LastIndex typeString ".")
             && (GoString.LastIndex typeString "." <=? GoString.len typeString))
      with true by (symmetry; rewrite !andb_true_iff, !Z.leb_le; lia).
    rewrite Z.sub_0_r. cbn [bind Z.to_nat].
    destruct (0 <? GoString.LastIndex typeString "/") eqn:Hsl; [|reflexivity].
    apply Z.ltb_lt in Hsl.
    pose proof (GoStringFacts.LastIndex_bounds typeString "/" Hsl) as Hb'.
    change (GoString.len "/") with 1 in Hb'.
    replace ((0 <=? GoString.LastIndex typeString "/" + 1)
             && (GoString.LastIndex typeString "/" + 1 <=? GoString.len typeString)
             && (GoString.len typeString <=? GoString.len typeString))
      with true by (symmetry; rewrite !andb_true_iff, !Z.leb_le; lia).
    reflexivity.
  - cbn [bind].
    destruct (0 <? GoString.LastIndex typeString "/") eqn:Hsl; [|reflexivity].
    apply Z.ltb_lt in Hsl.
    pose proof (GoStringFacts.LastIndex_bounds typeString "/" Hsl) as Hb'.
    change (GoString.len "/") with 1 in Hb'.
    replace ((0 <=? GoString.LastIndex typeString "/" + 1)
             && (GoString.LastIndex typeString "/" + 1 <=? GoString.len typeString)
             && (GoString.len typeString <=? GoString.len typeString))
      with true by (symmetry; rewrite !andb_true_iff, !Z.leb_le; lia).
    reflexivity.
Qed.
(** ** UTF-8: decoding inverts encoding on scalar values *)

Module Utf8Facts.
Import Utf8.

Lemma byteZ_asciiZ b : 0 <= b < 256 -> byteZ (asciiZ b) = b.
Proof.
  intros Hb. unfold byteZ, asciiZ.
  rewrite N_ascii_embedding by lia. lia.
Qed.

Lemma ofBytes_cons_app b bs s :
  ofBytes (b :: bs) +:+ s = String (asciiZ b) (ofBytes bs +:+ s).
Proof. reflexivity. Qed.

Lemma ofBytes_nil_app s : ofBytes [] +:+ s = s.
Proof. reflexivity. Qed.

Lemma ofBytes_app bs1 bs2 : ofBytes (bs1 ++ bs2) = ofBytes bs1 +:+ ofBytes bs2.
Proof.
  induction bs1 as [|b bs1 IH]; [reflexivity|].
  rewrite ofBytes_cons_app, <- IH. reflexivity.
Qed.

Lemma runes_width1 c0 s :
  (byteZ c0 <? 0x80) = true -> runes (String c0 s) = byteZ c0 :: runes s.
Proof. intros H. cbn [runes]. rewrite H. reflexivity. Qed.

Lemma runes_width2 c0 c1 s :
  (byteZ c0 <? 0x80) = false ->
  lead2 (byteZ c0) && cont (byteZ c1) = true ->
  runes (String c0 (String c1 s)) = rune2 (byteZ c0) (byteZ c1) :: runes s.
Proof. intros H0 H1. cbn [runes]. rewrite H0, H1. reflexivity. Qed.

Lemma runes_width3 c0 c1 c2 s :
  (byteZ c0 <? 0x80) = false ->
  lead2 (byteZ c0) = false ->
  accept3 (byteZ c0) (byteZ c1) && cont (byteZ c2) = true ->
  runes (String c0 (String c1 (String c2 s)))
  = rune3 (byteZ c0) (byteZ c1) (byteZ c2) :: runes s.
Proof. intros H0 H1 H2. cbn [runes]. rewrite H0, H1, H2. reflexivity. Qed.

Lemma runes_width4 c0 c1 c2 c3 s :
  (byteZ c0 <? 0x80) = false ->
  lead2 (byteZ c0) = false ->
  accept3 (byteZ c0) (byteZ c1) = false ->
  accept4 (byteZ c0) (byteZ c1) && cont (byteZ c2) && cont (byteZ c3) = true ->
  runes (String c0 (String c1 (String c2 (String c3 s))))
  = rune4 (byteZ c0) (byteZ c1) (byteZ c2) (byteZ c3) :: runes s.
Proof.
  intros H0 H1 H2 H3. cbn [runes]. rewrite H0, H1, H2, H3. reflexivity.
Qed.

Ltac bool_lia :=
  repeat match goal with
  | H : _ && _ = true |- _ => apply andb_true_iff in H; destruct H
  | H : _ || _ = true |- _ => apply orb_true_iff in H; destruct H
  | H : _ && _ = false |- _ => apply andb_false_iff in H; destruct H
  | H : (_ <=? _) = true |- _ => apply Z.leb_le in H
  | H : (_ <=? _) = false |- _ => apply Z.leb_gt in H
  | H : (_ <? _) = true |- _ => apply Z.ltb_lt in H
  | H : (_ <? _) = false |- _ => apply Z.ltb_ge in H
  | H : (_ =? _) = true |- _ => apply Z.eqb_eq in H
  | H : (_ =? _) = false |- _ => apply Z.eqb_neq in H
  end.

Ltac divmod := Z.div_mod_to_equations; lia.

Lemma ValidRune_spec r :
  ValidRune r = true <-> (0 <= r < 0xD800 \/ 0xDFFF < r <= 0x10FFFF).
Proof.
  unfold ValidRune, MaxRune.
  rewrite orb_true_iff, !andb_true_iff, !Z.leb_le, !Z.ltb_lt. tauto.
Qed.

Lemma runes_encodeRune r s :
  ValidRune r = true ->
  runes (ofBytes (encodeRune r) +:+ s) = r :: runes s.
Proof.
  intros Hv. unfold encodeRune. pose proof (proj1 (ValidRune_spec r) Hv) as Hr.
  destruct ((0 <=? r) && (r <=? 0x7F)) eqn:H1.
  { bool_lia. rewrite ofBytes_cons_app, ofBytes_nil_app, runes_width1;
      rewrite byteZ_asciiZ by lia; [reflexivity | apply Z.ltb_lt; lia]. }
  destruct ((0 <=? r) && (r <=? 0x7FF)) eqn:H2.
  { assert (0x80 <= r <= 0x7FF) as Hb by (bool_lia; lia). clear H1 H2 Hv Hr.
    rewrite !ofBytes_cons_app, ofBytes_nil_app, runes_width2;
      rewrite !byteZ_asciiZ by divmod.
    - f_equal. unfold rune2. divmod.
    - apply Z.ltb_ge. divmod.
    - unfold lead2, cont. rewrite !andb_true_iff, !Z.leb_le. divmod. }
  rewrite Hv. cbn [negb].
  assert (0x800 <= r) as Hlo by (bool_lia; lia). clear H1 H2 Hv.
  destruct (r <=? 0xFFFF) eqn:H3.
  { apply Z.leb_le in H3. unfold bytes3.
    rewrite !ofBytes_cons_app, ofBytes_nil_app, runes_width3;
      rewrite !byteZ_asciiZ by divmod.
    - f_equal. unfold rune3. divmod.
    - apply Z.ltb_ge. divmod.
    - unfold lead2. apply andb_false_iff. right. apply Z.leb_gt. divmod.
    - unfold accept3, cont.
      destruct (224 + r / 4096 =? 224) eqn:Ea;
        [| destruct (224 + r / 4096 =? 237) eqn:Eb];
        bool_lia; rewrite !andb_true_iff, !Z.leb_le; divmod. }
  apply Z.leb_gt in H3.
  rewrite !ofBytes_cons_app, ofBytes_nil_app, runes_width4;
    rewrite !byteZ_asciiZ by divmod.
  - f_equal. unfold rune4. divmod.
  - apply Z.ltb_ge. divmod.
  - unfold lead2. apply andb_false_iff. right. apply Z.leb_gt. divmod.
  - unfold accept3.
    destruct (240 + r / 262144 =? 224) eqn:Ea; [bool_lia; divmod|].
    destruct (240 + r / 262144 =? 237) eqn:Eb; [bool_lia; divmod|].
    apply andb_false_iff; left. apply andb_false_iff; right.
    apply Z.leb_gt. divmod.
  - unfold accept4, cont.
    destruct (240 + r / 262144 =? 240) eqn:Ea;
      [| destruct (240 + r / 262144 =? 244) eqn:Eb];
      bool_lia; rewrite !andb_true_iff, !Z.leb_le; divmod.
Qed.

Lemma runes_ofRunes a :
  Forall (fun r => ValidRune r = true) a -> runes (ofRunes a) = a.
Proof.
  induction 1 as [|r a Hr _ IH]; [reflexivity|].
  unfold ofRunes in *. cbn [List.map List.concat].
  rewrite ofBytes_app, runes_encodeRune by exact Hr.
  f_equal. exact IH.
Qed.

End Utf8Facts.

(** ** Naming: [lowerName] and [upperName] *)

Section NamingFacts.

Variable caseTo : unicodeCase -> Utf8.rune -> Utf8.rune.

Lemma ofRunes_cons r a :
  Utf8.ofRunes (r :: a) = Utf8.ofBytes (Utf8.encodeRune r) +:+ Utf8.ofRunes a.
Proof. unfold Utf8.ofRunes. cbn [List.map List.concat]. apply Utf8Facts.ofBytes_app. Qed.

(** C9.  For a non-empty identifier, the UTF-8 text of the characters
    [r :: a], [lowerName] returns the text of [ToLower r :: a] and
    [upperName] the text of [ToUpper r :: a]: the first character is
    replaced by its lower-case (upper-case) form, and the bytes of every
    other character are those of the identifier, in place. *)
Theorem naming_changes_first_character_only (r : Utf8.rune) (a : list Utf8.rune) :
  scalars (r :: a) ->
  lowerName caseTo (Utf8.ofRunes (r :: a))
    = Ok (Utf8.ofBytes (Utf8.encodeRune (ToLower caseTo r)) +:+ Utf8.ofRunes a)
  /\ upperName caseTo (Utf8.ofRunes (r :: a))
    = Ok (Utf8.ofBytes (Utf8.encodeRune (ToUpper caseTo r)) +:+ Utf8.ofRunes a)
  /\ Utf8.ofRunes (r :: a)
    = Utf8.ofBytes (Utf8.encodeRune r) +:+ Utf8.ofRunes a.
Proof.
  intros Hs. unfold lowerName, upperName.
  rewrite (Utf8Facts.runes_ofRunes (r :: a) Hs), !ofRunes_cons.
  repeat split.
Qed.

End NamingFacts.

(** An empty name has no first character: the index expression
    panics. *)
Lemma lowerName_empty caseTo :
  lowerName caseTo "" = Panic IndexOutOfRange
  /\ upperName caseTo "" = Panic IndexOutOfRange.
Proof. split; reflexivity. Qed.

Lemma naming_changes_first_character_only_witness :
  lowerName example.asciiOnly "Height" = Ok "height"
  /\ upperName example.asciiOnly "Height" = Ok "Height"
  /\ "Height" = "Height".
Proof.
  apply (naming_changes_first_character_only example.asciiOnly 72 [101; 105; 103; 104; 116]).
  repeat constructor.
Defined.

(** ** The loop over the fields *)


Lemma fieldStep_unrecognised field st :
  Embedded field = false ->
  classify (Underlying (TypeOf field)) = None ->
  fieldStep field st
  = Ok {| values := values st; imports := imports st;
          stdout := stdout st ++ [diagnosticOf field] |}.
Proof.
  intros He Hc. unfold fieldStep. rewrite He, splitTypeString_total.
  cbn [bind]. rewrite Hc. reflexivity.
Qed.

Lemma fieldStep_recognised field vt st :
  Embedded field = false ->
  classify (Underlying (TypeOf field)) = Some vt ->
  vt <> pointerType ->
  fieldStep field st
  = Ok (record field (impOf (fieldTypeString field))
               (textOf (fieldTypeString field)) vt st).
Proof.
  intros He Hc Hp. unfold fieldStep. rewrite He, splitTypeString_total.
  cbn [bind]. rewrite Hc. destruct vt; congruence.
Qed.

Lemma fieldStep_pointer field st :
  Embedded field = false ->
  classify (Underlying (TypeOf field)) = Some pointerType ->
  fieldStep field st
  = (let! (imp, typeString) :=
       stripPointer (impOf (fieldTypeString field))
                    (textOf (fieldTypeString field)) in
     Ok (record field imp typeString pointerType st)).
Proof.
  intros He Hc. unfold fieldStep. rewrite He, splitTypeString_total.
  cbn [bind]. rewrite Hc. reflexivity.
Qed.

(** The pointer case panics only on an empty type text. *)
Lemma stripPointer_total imp typeString :
  typeString <> "" ->
  exists imp' typeString', stripPointer imp typeString = Ok (imp', typeString').
Proof.
  intros Hne. unfold stripPointer, GoString.sliceFrom, GoString.slice.
  assert (1 <= GoString.len typeString) as Hl
    by (destruct typeString; [congruence | unfold GoString.len; simpl; lia]).
  destruct (0 <? GoString.len imp) eqn:Hi.
  - apply Z.ltb_lt in Hi.
    replace ((0 <=? 1) && (1 <=? GoString.len imp)
             && (GoString.len imp <=? GoString.len imp))
      with true by (symmetry; rewrite !andb_true_iff, !Z.leb_le; lia).
    cbn [bind].
    replace ((0 <=? 1) && (1 <=? GoString.len typeString)
             && (GoString.len typeString <=? GoString.len typeString))
      with true by (symmetry; rewrite !andb_true_iff, !Z.leb_le; lia).
    cbn [bind]. eauto.
  - cbn [bind].
    replace ((0 <=? 1) && (1 <=? GoString.len typeString)
             && (GoString.len typeString <=? GoString.len typeString))
      with true by (symmetry; rewrite !andb_true_iff, !Z.leb_le; lia).
    cbn [bind]. eauto.
Qed.

Lemma values_record field imp ts vt st :
  values (record field imp ts vt st)
  = values st ++ [ {| originalName := Name field; originalType := ts;
                      valueType := vt |} ].
Proof. reflexivity. Qed.

Lemma stdout_record field imp ts vt st :
  stdout (record field imp ts vt st) = stdout st.
Proof. reflexivity. Qed.

Lemma structLoop_app fs1 fs2 st :
  structLoop (fs1 ++ fs2) st
  = (let! st1 := structLoop fs1 st in structLoop fs2 st1).
Proof.
  revert st. induction fs1 as [|f fs1 IH]; intros st; [reflexivity|].
  cbn [app structLoop]. rewrite bind_assoc.
  destruct (fieldStep f st) as [st'|p]; [|reflexivity].
  cbn [bind]. apply IH.
Qed.

(** The loop neither reads standard output nor rewrites it: it appends
    to it. *)
Lemma fieldStep_setStdout field out st :
  fieldStep field (setStdout out st)
  = (let! r := fieldStep field (setStdout [] st) in
     Ok (setStdout (out ++ stdout r) r)).
Proof.
  unfold fieldStep. destruct (Embedded field).
  { cbn [bind setStdout stdout values imports]. rewrite app_nil_r. reflexivity. }
  rewrite splitTypeString_total. cbn [bind].
  destruct (classify (Underlying (TypeOf field))) as [vt|].
  - destruct vt; cbn [bind];
      try (unfold record, setStdout; cbn [values imports stdout];
           rewrite app_nil_r; reflexivity).
    destruct (stripPointer _ _) as [[imp ts]|p]; [|reflexivity].
    cbn [bind]. unfold record, setStdout; cbn [values imports stdout].
    rewrite app_nil_r. reflexivity.
  - cbn [bind setStdout stdout values imports]. reflexivity.
Qed.

Lemma setStdout_idem out out' st :
  setStdout out (setStdout out' st) = setStdout out st.
Proof. reflexivity. Qed.

Lemma setStdout_self st : setStdout (stdout st) st = st.
Proof. destruct st; reflexivity. Qed.

Lemma structLoop_setStdout fs out st :
  structLoop fs (setStdout out st)
  = (let! r := structLoop fs (setStdout [] st) in
     Ok (setStdout (out ++ stdout r) r)).
Proof.
  revert out st. induction fs as [|f fs IH]; intros out st.
  - cbn [structLoop bind setStdout stdout values imports].
    rewrite app_nil_r. reflexivity.
  - cbn [structLoop]. rewrite (fieldStep_setStdout f out st).
    destruct (fieldStep f (setStdout [] st)) as [r|p]; [|reflexivity].
    cbn [bind].
    pose proof (IH (stdout r) r) as E. rewrite setStdout_self in E.
    rewrite E, (IH (out ++ stdout r) r).
    destruct (structLoop fs (setStdout [] r)) as [r'|p]; [|reflexivity].
    cbn [bind]. rewrite setStdout_idem. cbn [setStdout stdout].
    rewrite app_assoc. reflexivity.
Qed.


(** A field of unrecognised shape among the fields costs one diagnostic
    and nothing else. *)
Lemma structLoop_unrecognised fs1 fs2 field st st2 :
  Embedded field = false ->
  classify (Underlying (TypeOf field)) = None ->
  structLoop (fs1 ++ fs2) st = Ok st2 ->
  exists st' before after,
    structLoop (fs1 ++ field :: fs2) st = Ok st'
    /\ values st' = values st2
    /\ imports st' = imports st2
    /\ stdout st2 = before ++ after
    /\ stdout st' = before ++ [diagnosticOf field] ++ after.
Proof.
  intros He Hc Hrun. rewrite structLoop_app in Hrun. rewrite structLoop_app.
  destruct (structLoop fs1 st) as [st1|p]; [|discriminate].
  cbn [bind structLoop] in *.
  rewrite (fieldStep_unrecognised field st1 He Hc). cbn [bind].
  change {| values := values st1; imports := imports st1;
            stdout := stdout st1 ++ [diagnosticOf field] |}
    with (setStdout (stdout st1 ++ [diagnosticOf field]) st1).
  rewrite structLoop_setStdout.
  rewrite <- (setStdout_self st1) in Hrun. rewrite structLoop_setStdout in Hrun.
  destruct (structLoop fs2 (setStdout [] st1)) as [r|p]; [|discriminate].
  cbn [bind] in *. injection Hrun as <-.
  exists (setStdout ((stdout st1 ++ [diagnosticOf field]) ++ stdout r) r),
         (stdout st1), (stdout r).
  cbn [setStdout values imports stdout]. rewrite <- app_assoc. auto.
Qed.

(** ** Classification *)

Lemma categorised_recognised field vt :
  Embedded field = false ->
  classify (Underlying (TypeOf field)) = Some vt ->
  vt <> pointerType ->
  categorised field vt.
Proof.
  intros He Hc Hp st. eexists _, _. split.
  - apply fieldStep_recognised; eassumption.
  - apply values_record.
Qed.

Lemma categorised_pointer field :
  Embedded field = false ->
  classify (Underlying (TypeOf field)) = Some pointerType ->
  textOf (fieldTypeString field) <> "" ->
  categorised field pointerType.
Proof.
  intros He Hc Hne st.
  destruct (stripPointer_total (impOf (fieldTypeString field)) _ Hne)
    as (imp & ts & E).
  eexists _, ts. split.
  - rewrite fieldStep_pointer by assumption. rewrite E. cbn [bind]. reflexivity.
  - apply values_record.
Qed.

Lemma skipped_unrecognised field :
  Embedded field = false ->
  classify (Underlying (TypeOf field)) = None ->
  skipped field.
Proof.
  intros He Hc st. eexists. split.
  - apply fieldStep_unrecognised; assumption.
  - reflexivity.
Qed.

Lemma categorised_functional field vt1 vt2 :
  categorised field vt1 -> categorised field vt2 -> vt1 = vt2.
Proof.
  intros H1 H2.
  destruct (H1 collected0) as (st1 & ts1 & E1 & V1).
  destruct (H2 collected0) as (st2 & ts2 & E2 & V2).
  rewrite E1 in E2. injection E2 as <-. rewrite V1 in V2.
  cbn in V2. congruence.
Qed.

Lemma categorised_not_skipped field vt :
  categorised field vt -> ~ skipped field.
Proof.
  intros H1 H2.
  destruct (H1 collected0) as (st1 & ts1 & E1 & V1).
  destruct (H2 collected0) as (st2 & E2 & V2).
  rewrite E1 in E2. injection E2 as <-. rewrite V1 in V2.
  cbn in V2. discriminate.
Qed.

(** C3, as the claim states it, fails on a channel field: the field is not
    embedded, and the classifier assigns it no category at all.  The loop
    body prints the diagnostic and goes on. *)
Lemma channel_field_has_no_category :
  Embedded example.chanField = false
  /\ ~ (exists vt, categorised example.chanField vt)
  /\ fieldStep example.chanField collected0
     = Ok {| values := []; imports := ∅;
             stdout := [ {| diagField := "ch"; diagTypeString := "chan int";
                            diagTyp := Chan SendRecv (Basic "int") |} ] |}.
Proof.
  split; [reflexivity|]. split; [|reflexivity].
  intros [vt H]. apply (categorised_not_skipped _ _ H).
  apply skipped_unrecognised; reflexivity.
Qed.

(** C3, amended.  The category of a non-embedded field is a function of
    its underlying type: basic, array, function and struct types are
    [baseType] (scalar), slice types [sliceType], map types [mapType],
    interface types [interfaceType], pointer types [pointerType] (the type
    text left after the cut at the last slash being non-empty); a field of
    any other underlying type is skipped and has no category.  No field has
    two categories. *)
Theorem category_by_underlying_type (field : Object) :
  Embedded field = false ->
  match Underlying (TypeOf field) with
  | Basic _ | Array _ _ | Signature _ _ | Struct _ => categorised field baseType
  | Slice _ => categorised field sliceType
  | Map _ _ => categorised field mapType
  | Interface _ => categorised field interfaceType
  | Pointer _ =>
    textOf (fieldTypeString field) <> "" -> categorised field pointerType
  | Chan _ _ | Named _ _ _ | TypeParam _ _ =>
    skipped field /\ forall vt, ~ categorised field vt
  end
  /\ forall vt1 vt2,
       categorised field vt1 -> categorised field vt2 -> vt1 = vt2.
Proof.
  intros He. split; [|apply categorised_functional].
  destruct (Underlying (TypeOf field)) eqn:Hu;
    try (apply categorised_recognised;
         [exact He | rewrite Hu; reflexivity | discriminate]).
  - intros Hne. apply categorised_pointer;
      [exact He | rewrite Hu; reflexivity | exact Hne].
  - assert (skipped field) as Hs
      by (apply skipped_unrecognised; [exact He | rewrite Hu; reflexivity]).
    split; [exact Hs|]. intros vt Hc. exact (categorised_not_skipped _ _ Hc Hs).
  - assert (skipped field) as Hs
      by (apply skipped_unrecognised; [exact He | rewrite Hu; reflexivity]).
    split; [exact Hs|]. intros vt Hc. exact (categorised_not_skipped _ _ Hc Hs).
  - assert (skipped field) as Hs
      by (apply skipped_unrecognised; [exact He | rewrite Hu; reflexivity]).
    split; [exact Hs|]. intros vt Hc. exact (categorised_not_skipped _ _ Hc Hs).
Qed.

Lemma category_by_underlying_type_witness :
  categorised (example.var "myType" example.tMyType) baseType
  /\ forall vt1 vt2,
       categorised (example.var "myType" example.tMyType) vt1 ->
       categorised (example.var "myType" example.tMyType) vt2 -> vt1 = vt2.
Proof.
  exact (category_by_underlying_type (example.var "myType" example.tMyType) eq_refl).
Defined.

(** ** Pointer fields *)

(** A pointer type prints as the pointer marker followed by its element. *)
Lemma TypeString_Pointer qf e :
  TypeString qf (Pointer e) = String "*" (TypeString qf e).
Proof. reflexivity. Qed.

(** Where the type text has no slash past its first byte, the pointer case
    leaves the text of the pointee. *)
Lemma pointer_field_without_slash field e st :
  Embedded field = false ->
  TypeOf field = Pointer e ->
  (GoString.LastIndex (fieldTypeString field) "/" <= 0) ->
  exists imp,
    fieldStep field st
    = Ok (record field imp (TypeString (RelativeTo (Pkg field)) e) pointerType st).
Proof.
  intros He Ht Hs.
  rewrite fieldStep_pointer by (rewrite ?Ht; reflexivity || exact He).
  unfold textOf. replace (0 <? _) with false by (symmetry; apply Z.ltb_ge; exact Hs).
  unfold fieldTypeString at 2. rewrite Ht, TypeString_Pointer.
  unfold stripPointer.
  destruct (if 0 <? GoString.len (impOf (fieldTypeString field))
            then GoString.sliceFrom (impOf (fieldTypeString field)) 1
            else Ok (impOf (fieldTypeString field))) as [imp|p] eqn:E.
  - cbn [bind]. exists imp.
    unfold GoString.sliceFrom, GoString.slice.
    pose proof (GoStringFacts.len_nonneg (TypeString (RelativeTo (Pkg field)) e)).
    assert (GoString.len (String "*" (TypeString (RelativeTo (Pkg field)) e))
            = 1 + GoString.len (TypeString (RelativeTo (Pkg field)) e)) as Hl
      by (unfold GoString.len; cbn [String.length]; lia).
    rewrite Hl.
    replace ((0 <=? 1) && (1 <=? 1 + GoString.len (TypeString (RelativeTo (Pkg field)) e))
             && (1 + GoString.len (TypeString (RelativeTo (Pkg field)) e)
                 <=? 1 + GoString.len (TypeString (RelativeTo (Pkg field)) e)))
      with true by (symmetry; rewrite !andb_true_iff, !Z.leb_le; lia).
    cbn [bind]. do 2 f_equal.
    replace (Z.to_nat (1 + GoString.len (TypeString (RelativeTo (Pkg field)) e) - 1))
      with (String.length (TypeString (RelativeTo (Pkg field)) e))
      by (unfold GoString.len; lia).
    change (Z.to_nat 1) with 1%nat. cbn [substring].
    generalize (TypeString (RelativeTo (Pkg field)) e).
    induction s as [|c s IH]; [reflexivity|]. cbn [String.length substring].
    f_equal. exact IH.
  - exfalso.
    destruct (0 <? GoString.len (impOf (fieldTypeString field))) eqn:Hi;
      [|discriminate].
    apply Z.ltb_lt in Hi. revert E.
    unfold GoString.sliceFrom, GoString.slice.
    replace ((0 <=? 1) && (1 <=? GoString.len (impOf (fieldTypeString field)))
             && (GoString.len (impOf (fieldTypeString field))
                 <=? GoString.len (impOf (fieldTypeString field))))
      with true by (symmetry; rewrite !andb_true_iff, !Z.leb_le; lia).
    discriminate.
Qed.

(** C4 at [frame *errors.Frame] with [errors] imported from
    [github.com/pkg/errors]: the cut at the last slash has already removed
    the pointer marker, and the pointer case removes one more byte.  The
    recorded type text is ["rrors.Frame"], neither the pointee's type text
    nor what the same field without the pointer records; the import path
    is the intended one. *)
Theorem pointer_to_slash_qualified_type :
  fieldTypeString example.framePointerField = "*github.com/pkg/errors.Frame"
  /\ fieldStep example.framePointerField collected0
     = Ok {| values := [ mkValue "frame" "rrors.Frame" pointerType ];
             imports := {[ "github.com/pkg/errors" ]} ∪ ∅;
             stdout := [] |}
  /\ fieldStep example.frameField collected0
     = Ok {| values := [ mkValue "frame" "errors.Frame" baseType ];
             imports := {[ "github.com/pkg/errors" ]} ∪ ∅;
             stdout := [] |}.
Proof. repeat split; reflexivity. Qed.

(** The same defect on a field whose type is a named pointer type: the
    type text is the name, and the pointer case removes its first byte. *)
Lemma named_pointer_type_text :
  fieldTypeString example.namedPointerField = "P"
  /\ fieldStep example.namedPointerField collected0
     = Ok {| values := [ mkValue "p" "" pointerType ];
             imports := ∅; stdout := [] |}.
Proof. split; reflexivity. Qed.

(** ** Interface fields *)




(** ** Rendering *)

Lemma append_cons c s t : String c s +:+ t = String c (s +:+ t).
Proof. reflexivity. Qed.

Lemma append_nil_r s : s +:+ "" = s.
Proof.
  induction s as [|c s IH]; [reflexivity|]. rewrite append_cons, IH. reflexivity.
Qed.

Lemma append_assoc s1 s2 s3 : (s1 +:+ s2) +:+ s3 = s1 +:+ (s2 +:+ s3).
Proof.
  induction s1 as [|c s1 IH]; [reflexivity|].
  rewrite !append_cons, IH. reflexivity.
Qed.

(** Every template of [temps], and [mapType.inc] too, is the option type,
    its [Apply] method and its factory, around a body of its own. *)
Lemma temps_shape vt temp :
  temps vt = Some temp -> exists body, temp = optionTemplate body.
Proof.
  destruct vt; intros [= <-]; eexists; reflexivity.
Qed.

Lemma templateMapType_shape :
  templateMapType
  = optionTemplate
      [ Text nl;
        Text tab; Text "if c."; Field "origName"; Text " == nil {"; Text nl;
        Text tab; Text tab; Text "c."; Field "origName"; Text " = ";
        Field "origType"; Text "(o)"; Text nl;
        Text tab; Text "}"; Text nl;
        Text tab; Text "for k,v := range o {"; Text nl;
        Text tab; Text tab; Text "c."; Field "origName"; Text "[k] = v"; Text nl;
        Text tab; Text "}"; Text nl ].
Proof. reflexivity. Qed.

Section RenderingFacts.

Variable caseTo : unicodeCase -> Utf8.rune -> Utf8.rune.

Lemma valueStep_fragment value temp data buf :
  temps (valueType value) = Some temp ->
  valueData caseTo value = Ok data ->
  valueStep caseTo value buf = Ok (buf +:+ exec data temp).
Proof.
  intros Ht Hd. unfold valueStep. rewrite Ht, Hd. reflexivity.
Qed.

Lemma valueStep_buf value buf :
  valueStep caseTo value buf
  = (let! fragment := valueStep caseTo value "" in Ok (buf +:+ fragment)).
Proof.
  unfold valueStep. destruct (temps (valueType value)) as [temp|].
  - destruct (valueData caseTo value) as [data|p]; reflexivity.
  - cbn [bind]. rewrite append_nil_r. reflexivity.
Qed.

Lemma valuesLoop_buf vs buf :
  valuesLoop caseTo vs buf
  = (let! body := valuesLoop caseTo vs "" in Ok (buf +:+ body)).
Proof.
  revert buf. induction vs as [|value vs IH]; intros buf.
  - cbn [valuesLoop bind]. rewrite append_nil_r. reflexivity.
  - cbn [valuesLoop]. rewrite (valueStep_buf value buf).
    destruct (valueStep caseTo value "") as [fragment|p]; [|reflexivity].
    cbn [bind]. rewrite (IH (buf +:+ fragment)), (IH fragment).
    destruct (valuesLoop caseTo vs "") as [body|p]; [|reflexivity].
    cbn [bind]. rewrite append_assoc. reflexivity.
Qed.

(** C1 at a struct with a map-typed field, and for every map-typed
    value: the classifier records the field with value type [mapType],
    but [temps] has no template for that value type, and the loop over
    the values writes nothing for it.  For the struct whose only field is
    [maps map[string]string] the generated unit is the header alone: no
    option type, no [Apply] method and no [WithMaps]. *)
Theorem map_field_has_no_fragment :
  defsLoop "config" (defs (pkg (example.generatorOf example.mapsOnly)))
           collected0
  = Ok {| values := [ mkValue "maps" "map[string]string" mapType ];
          imports := ∅; stdout := [] |}
  /\ generateWith caseTo (example.generatorOf example.mapsOnly) "config"
       (defs (pkg (example.generatorOf example.mapsOnly))) example.ascending
     = Ok {| outBuf := Execute "" templateHeader
                         (headerData (example.generatorOf example.mapsOnly)
                                     "config" []);
             outStdout := [] |}
  /\ temps mapType = None
  /\ forall (n t buf : string),
       valueStep caseTo (mkValue n t mapType) buf = Ok buf.
Proof.
  split; [vm_compute; reflexivity|].
  split; [vm_compute; reflexivity|].
  split; [reflexivity|].
  intros n t buf. reflexivity.
Qed.

End RenderingFacts.


(** The text of a fragment: one option type over the recorded type text,
    one [Apply] method, and one factory [With<Upper>] whose parameter has
    the recorded type text. *)
Lemma fragment_text (name lower upper ty : string) (vt : ValueType) temp :
  temps vt = Some temp ->
  exec (<["origName" := Str name]>
        (<["nameLower" := Str lower]>
        (<["nameUpper" := Str upper]>
        (<["origType" := Str ty]> ∅)))) temp
  = "type " +:+ lower +:+ "Option " +:+ ty +:+ nl +:+
    "func (o " +:+ lower +:+ "Option) Apply(c *config ) {" +:+
    applyText vt name ty +:+ "}" +:+ nl +:+
    "func With" +:+ upper +:+ "(m " +:+ ty +:+ ") Option { return " +:+
    lower +:+ "Option(m) }" +:+ nl +:+ nl.
Proof.
  destruct vt; intros [= <-]; unfold applyText;
    rewrite ?append_assoc; vm_compute; reflexivity.
Qed.
(** ** The loop over the definitions *)

Lemma defStep_other typeName d st :
  IdentName (fst d) <> typeName -> defStep typeName d st = Ok st.
Proof.
  intros Hne. unfold defStep.
  destruct (String.eqb (IdentName (fst d)) typeName) eqn:E; [|reflexivity].
  apply String.eqb_eq in E. contradiction.
Qed.

Lemma defStep_named typeName d st :
  IdentName (fst d) = typeName ->
  defStep typeName d st
  = (let! fields := namedStruct (snd d) in structLoop fields st).
Proof.
  intros He. unfold defStep. rewrite (proj2 (String.eqb_eq _ _) He). reflexivity.
Qed.

(** Only the entries that carry the name matter. *)
Lemma defsLoop_named typeName visit st :
  defsLoop typeName visit st = defsLoop typeName (named typeName visit) st.
Proof.
  revert st. induction visit as [|d visit IH]; intros st; [reflexivity|].
  unfold named. rewrite filter_cons. fold (named typeName visit).
  destruct (decide (IdentName (fst d) = typeName)) as [He|Hne].
  - cbn [defsLoop]. destruct (defStep typeName d st); [|reflexivity].
    cbn [bind]. apply IH.
  - cbn [defsLoop]. rewrite defStep_other by exact Hne. cbn [bind]. apply IH.
Qed.

Lemma short_Permutation_eq {A} (l1 l2 : list A) :
  l1 ≡ₚ l2 -> (length l2 <= 1)%nat -> l1 = l2.
Proof.
  intros Hp Hl. destruct l2 as [|x [|y l2]].
  - apply Permutation_nil_r. exact Hp.
  - apply Permutation_singleton_r. exact Hp.
  - cbn in Hl. lia.
Qed.

(** With at most one entry of that name, the order of the visit is
    immaterial. *)
Lemma defsLoop_visit typeName visit ds st :
  visit ≡ₚ ds ->
  (length (named typeName ds) <= 1)%nat ->
  defsLoop typeName visit st = defsLoop typeName ds st.
Proof.
  intros Hp Hl.
  rewrite (defsLoop_named typeName visit), (defsLoop_named typeName ds).
  f_equal. apply short_Permutation_eq; [|exact Hl].
  unfold named. rewrite Hp. reflexivity.
Qed.

Lemma namedStruct_TypeAssertion o :
  isNamedStruct (TypeOf o) = false -> namedStruct (Some o) = Panic TypeAssertion.
Proof.
  unfold isNamedStruct, namedStruct.
  destruct (TypeOf o) as [| | | | | | | | |p n u|]; try reflexivity.
  destruct (Underlying (Named p n u)); first [discriminate | reflexivity].
Qed.

Lemma defsLoop_panics typeName d o visit st :
  d ∈ visit ->
  IdentName (fst d) = typeName ->
  snd d = Some o ->
  isNamedStruct (TypeOf o) = false ->
  exists p, defsLoop typeName visit st = Panic p.
Proof.
  intros Hin Hn Ho Hs. revert st.
  induction visit as [|d' visit IH]; intros st; [inversion Hin|].
  cbn [defsLoop]. apply elem_of_cons in Hin as [<- | Hin].
  - rewrite defStep_named, Ho, namedStruct_TypeAssertion by assumption.
    cbn [bind]. eauto.
  - destruct (defStep typeName d' st) as [st'|p]; cbn [bind]; [|eauto].
    apply IH, Hin.
Qed.

Section GenerateFacts.

Variable caseTo : unicodeCase -> Utf8.rune -> Utf8.rune.

(** C5, amended.  When at most one definition carries the name of the
    target type, two runs over the same package agree on everything but
    the order of the import lines: both panic in the same way, or both
    complete with the same diagnostics and with texts that consist of the
    header, rendered for some enumeration of the same import set, and of
    the same field fragments.  With at most one import path the two runs
    are identical. *)
Theorem runs_differ_by_import_order_only
    (g : Generator) (typeName : string) (r1 r2 : result Output) :
  (length (named typeName (defs (pkg g))) <= 1)%nat ->
  generate caseTo g typeName r1 ->
  generate caseTo g typeName r2 ->
  sameUpToImportOrder caseTo g typeName r1 r2.
Proof.
  intros Hone [visit1 order1 Hv1 Ho1] [visit2 order2 Hv2 Ho2].
  unfold sameUpToImportOrder, generateWith.
  rewrite (defsLoop_visit typeName visit1 _ collected0 Hv1 Hone),
          (defsLoop_visit typeName visit2 _ collected0 Hv2 Hone).
  destruct (defsLoop typeName (defs (pkg g)) collected0) as [st|p];
    [|reflexivity].
  cbn [bind]. rewrite !(valuesLoop_buf caseTo (values st) (Execute _ _ _)).
  destruct (valuesLoop caseTo (values st) "") as [body|p] eqn:Hbody;
    [|reflexivity].
  cbn [bind outStdout outBuf]. split; [reflexivity|].
  exists st, body, (order1 (imports st)), (order2 (imports st)).
  split; [reflexivity|].
  split; [exact Hbody|].
  split; [apply Ho1|].
  split; [apply Ho2|].
  split; [reflexivity|].
  split; [reflexivity|].
  intros Hsize.
  rewrite (short_Permutation_eq _ _ (Ho1 (imports st)) Hsize),
          (short_Permutation_eq _ _ (Ho2 (imports st)) Hsize).
  reflexivity.
Qed.

(** C10, amended.  Where [Defs] holds an object of the target's name
    whose type is not a named struct type -- a function, a constant, a
    variable or a field of another type -- every run of [generate] panics,
    whatever the order of the visit, and nothing is returned; when that
    entry is the only one of the name, the panic is that of the failed type
    assertion. *)
Theorem name_clash_panics
    (g : Generator) (typeName : string) (d : Ident * option Object)
    (o : Object) (r : result Output) :
  d ∈ defs (pkg g) ->
  IdentName (fst d) = typeName ->
  snd d = Some o ->
  isNamedStruct (TypeOf o) = false ->
  generate caseTo g typeName r ->
  (exists p, r = Panic p)
  /\ ((length (named typeName (defs (pkg g))) <= 1)%nat ->
      r = Panic TypeAssertion).
Proof.
  intros Hin Hn Ho Hs [visit order Hv Hord]. unfold generateWith. split.
  - assert (d ∈ visit) as Hin' by (rewrite Hv; exact Hin).
    destruct (defsLoop_panics typeName d o visit collected0 Hin' Hn Ho Hs)
      as [p ->].
    cbn [bind]. eauto.
  - intros Hone.
    rewrite (defsLoop_visit typeName visit _ collected0 Hv Hone),
            defsLoop_named.
    assert (d ∈ named typeName (defs (pkg g))) as Hd
      by (apply list_elem_of_filter; split; assumption).
    destruct (named typeName (defs (pkg g))) as [|d' [|d'' l]].
    + inversion Hd.
    + apply list_elem_of_singleton in Hd as <-.
      cbn [defsLoop]. rewrite defStep_named, Ho, namedStruct_TypeAssertion
        by assumption.
      reflexivity.
    + cbn in Hone. lia.
Qed.

End GenerateFacts.

Lemma runs_differ_by_import_order_only_witness :
  sameUpToImportOrder example.asciiOnly
    (example.generatorOf example.configFields) "config"
    (generateWith example.asciiOnly (example.generatorOf example.configFields)
       "config" (defs (pkg (example.generatorOf example.configFields)))
       example.ascending)
    (generateWith example.asciiOnly (example.generatorOf example.configFields)
       "config" (reverse (defs (pkg (example.generatorOf example.configFields))))
       example.descending).
Proof.
  apply (runs_differ_by_import_order_only example.asciiOnly
           (example.generatorOf example.configFields) "config").
  - vm_compute. lia.
  - apply generate_run; [reflexivity | intros s; reflexivity].
  - apply generate_run; [apply reverse_Permutation |
                         intros s; apply reverse_Permutation].
Defined.

(** C5, as the claim states it, fails on a struct with the fields
    [inter io.Reader] and [buf bytes.Buffer]: ranging over the import set
    in one order or the other gives two runs over the same package whose
    texts differ. *)
Lemma import_order_changes_the_output :
  exists r1 r2,
    generate example.asciiOnly (example.generatorOf example.twoImports)
             "config" r1
    /\ generate example.asciiOnly (example.generatorOf example.twoImports)
                "config" r2
    /\ r1 <> r2.
Proof.
  exists (generateWith example.asciiOnly (example.generatorOf example.twoImports)
            "config" (defs (pkg (example.generatorOf example.twoImports)))
            example.ascending),
         (generateWith example.asciiOnly (example.generatorOf example.twoImports)
            "config" (defs (pkg (example.generatorOf example.twoImports)))
            example.descending).
  split; [apply generate_run; [reflexivity | intros s; reflexivity]|].
  split; [apply generate_run;
          [reflexivity | intros s; apply reverse_Permutation]|].
  vm_compute. discriminate.
Qed.

(** C10, as the claim states it, fails on a struct field that carries the
    name of the target type and has that type: the identifier is a field,
    not a type name, its type passes both type assertions, and no run
    panics.  (The fields of [config] are then collected once per entry.) *)
Lemma field_of_the_target_type_does_not_panic :
  example.fieldNamedConfig ∈ defs (pkg example.generatorWithField)
  /\ IdentName (fst example.fieldNamedConfig) = "config"
  /\ (exists o, snd example.fieldNamedConfig = Some o /\ Kind o = VarObj)
  /\ forall r,
       generate example.asciiOnly example.generatorWithField "config" r ->
       exists out, r = Ok out.
Proof.
  split; [do 4 apply list_elem_of_further; apply list_elem_of_here|].
  split; [reflexivity|].
  split; [eexists; split; reflexivity|].
  intros r [visit order Hv Ho]. unfold generateWith.
  rewrite defsLoop_named.
  assert ([example.typeDef 40 "config" example.tConfigColor;
           example.fieldNamedConfig] ≡ₚ named "config" visit) as Hp
    by (unfold named; rewrite Hv; reflexivity).
  assert (order ∅ = []) as Hempty
    by (apply Permutation_nil_r; rewrite Ho; reflexivity).
  apply Permutation_length_2_inv in Hp as [-> | ->].
  - change (defsLoop "config"
              [example.typeDef 40 "config" example.tConfigColor;
               example.fieldNamedConfig] collected0)
      with (Ok {| values := [ mkValue "color" "string" baseType;
                              mkValue "color" "string" baseType ];
                  imports := ∅; stdout := [] |}).
    cbn [bind imports values]. rewrite Hempty. vm_compute. eauto.
  - change (defsLoop "config"
              [example.fieldNamedConfig;
               example.typeDef 40 "config" example.tConfigColor] collected0)
      with (Ok {| values := [ mkValue "color" "string" baseType;
                              mkValue "color" "string" baseType ];
                  imports := ∅; stdout := [] |}).
    cbn [bind imports values]. rewrite Hempty. vm_compute. eauto.
Qed.

Lemma name_clash_panics_witness :
  (exists p,
     generateWith example.asciiOnly example.generatorWithFunc "config"
       (defs (pkg example.generatorWithFunc)) example.ascending = Panic p)
  /\ ((length (named "config" (defs (pkg example.generatorWithFunc))) <= 1)%nat ->
      generateWith example.asciiOnly example.generatorWithFunc "config"
        (defs (pkg example.generatorWithFunc)) example.ascending
      = Panic TypeAssertion).
Proof.
  apply (name_clash_panics example.asciiOnly example.generatorWithFunc "config"
           example.funcNamedConfig
           (mkObject FuncObj (Some example.pkgExample) "config"
                     (Signature [] []) false)).
  - apply list_elem_of_further, list_elem_of_here.
  - reflexivity.
  - reflexivity.
  - reflexivity.
  - apply generate_run; [reflexivity | intros s; reflexivity].
Defined.


(** ** The map option *)

Module generatedFacts.
Section MapOptionFacts.

Import generated.

Context {V : Type}.
Local Abbreviation store := (gmap loc (gmap string V)) (only parsing).
Variable order : gmap string V -> list (string * V).
Hypothesis order_enumerates : forall m, order m ≡ₚ map_to_list m.

Lemma foldl_put kvs (m : gmap string V) :
foldl put m kvs = list_to_map (reverse kvs) ∪ m.
Proof.
revert m. induction kvs as [|[k v] kvs IH]; intros m.
- cbn. rewrite (left_id_L ∅ (∪)). reflexivity.
- cbn [foldl]. rewrite IH, reverse_cons, list_to_map_app.
  unfold put. cbn [fst snd list_to_map foldr uncurry].
  rewrite <- (assoc_L (∪)), <- insert_union_l, (left_id_L ∅ (∪)).
  reflexivity.
Qed.

Lemma foldl_put_order (mo m : gmap string V) :
foldl put m (order mo) = mo ∪ m.
Proof.
rewrite foldl_put. f_equal.
rewrite <- (list_to_map_to_list mo) at 2.
apply list_to_map_proper.
- rewrite reverse_Permutation, order_enumerates. apply NoDup_fst_map_to_list.
- rewrite reverse_Permutation. apply order_enumerates.
Qed.

Lemma rangeAssign_Some l kvs (h : store) :
exists h',
  rangeAssign (Some l) kvs h = Ok h'
  /\ h' !!! l = foldl put (h !!! l) kvs
  /\ forall l', l' <> l -> h' !!! l' = h !!! l'.
Proof.
revert h. induction kvs as [|[k v] kvs IH]; intros h.
- exists h. repeat split.
- cbn [rangeAssign assign bind].
  destruct (IH (<[l := <[k := v]> (h !!! l)]> h)) as (h' & E & Hl & Hother).
  exists h'. split; [exact E|]. split.
  + rewrite Hl, lookup_total_insert_eq. reflexivity.
  + intros l' Hne. rewrite Hother by exact Hne.
    apply lookup_total_insert_ne. congruence.
Qed.

(** One option: the field is set to the option's map if it was nil, and
  afterwards holds the option's entries over those it had; the other
  maps of the store keep their entries. *)
Lemma Apply_merges (o f : mapRef) (h : store) :
exists f' h',
  Apply order o (f, h) = Ok (f', h')
  /\ f' = match f with None => o | Some _ => f end
  /\ entries f' h' = entries o h ∪ entries f h
  /\ forall m, m <> f' -> entries m h' = entries m h.
Proof.
unfold Apply.
destruct f as [l|].
- destruct (rangeAssign_Some l (order (entries o h)) h) as (h' & E & Hl & Ho).
  exists (Some l), h'. rewrite E. cbn [bind entries].
  repeat split.
  + rewrite Hl. apply foldl_put_order.
  + intros [l'|] Hne; [|reflexivity]. cbn [entries]. apply Ho. congruence.
- destruct o as [l|].
  + destruct (rangeAssign_Some l (order (entries (Some l) h)) h)
      as (h' & E & Hl & Ho).
    exists (Some l), h'. rewrite E. cbn [bind entries] in *.
    repeat split.
    * rewrite Hl, foldl_put_order, (right_id_L ∅ (∪)).
      apply (idemp_L (∪)).
    * intros [l'|] Hne; [|reflexivity]. cbn [entries]. apply Ho. congruence.
  + exists None, h. cbn [entries].
    assert (order (∅ : gmap string V) = []) as ->.
    { apply Permutation_nil_r. rewrite order_enumerates, map_to_list_empty.
      reflexivity. }
    cbn [rangeAssign bind]. split; [reflexivity|]. split; [reflexivity|].
    split; [|reflexivity]. rewrite (left_id_L ∅ (∪)). reflexivity.
Qed.

(** C2.  Applying a map option merges: after [Apply] the field holds the
  entries of the option over the entries it had before, so that an
  entry of the option replaces an entry of the same key and every other
  entry stays.  In particular [New(WithF(a), WithF(b))] leaves a field
  with the entries of [b] over those of [a], not the entries of [b]
  alone. *)
Theorem map_options_accumulate :
(forall (o f : mapRef) (h : store),
   exists f' h',
     Apply order o (f, h) = Ok (f', h')
     /\ entries f' h' = entries o h ∪ entries f h)
/\ (forall (a b : mapRef) (h : store),
      exists f h',
        New order [With a; With b] h = Ok (f, h')
        /\ entries f h' = entries b h ∪ entries a h).
Proof.
split.
- intros o f h. destruct (Apply_merges o f h) as (f' & h' & E & _ & He & _).
  eauto.
- intros a b h. unfold New, With. cbn [ApplyAll].
  destruct (Apply_merges a None h) as (f1 & h1 & E1 & -> & He1 & Ho1).
  unfold mapRef in *. rewrite E1. cbn [bind].
  destruct (Apply_merges b a h1) as (f2 & h2 & E2 & _ & He2 & _).
  unfold mapRef in *. rewrite E2. cbn [bind]. exists f2, h2. split; [reflexivity|].
  rewrite He2. cbn [entries] in He1. rewrite (right_id_L ∅ (∪)) in He1.
  rewrite He1. f_equal.
  destruct (decide (b = a)) as [->|Hne]; [exact He1 | apply Ho1, Hne].
Qed.

End MapOptionFacts.
End generatedFacts.

Lemma map_options_accumulate_witness :
  exists f h',
    generated.New map_to_list
      [generated.With (Some 1%positive); generated.With (Some 2%positive)]
      example.storeXY = Ok (f, h')
    /\ generated.entries f h' = example.mapY ∪ example.mapX.
Proof.
  exact (proj2 (generatedFacts.map_options_accumulate map_to_list
                  (fun m => Permutation_refl (map_to_list m)))
               (Some 1%positive) (Some 2%positive) example.storeXY).
Defined.

(** The example of the specification: [{"x": 1}] then [{"y": 2}] leaves
    [{"x": 1, "y": 2}], which is not [{"y": 2}]. *)
Lemma map_options_x_then_y :
  exists h',
    generated.New map_to_list
      [generated.With (Some 1%positive); generated.With (Some 2%positive)]
      example.storeXY = Ok (Some 1%positive, h')
    /\ generated.entries (Some 1%positive) h'
       = <["x" := 1]> (<["y" := 2]> ∅)
    /\ generated.entries (Some 1%positive) h' <> example.mapY.
Proof.
  eexists. split; [vm_compute; reflexivity|].
  split; [vm_compute; reflexivity|].
  intros H. apply (f_equal (fun m : gmap string Z => m !! "x")) in H.
  vm_compute in H. discriminate.
Qed.

(** * Further properties *)

(** ** Collecting the fields *)

Lemma fieldStep_cases field st :
  fieldStep field st
  = if Embedded field then Ok st
    else match classify (Underlying (TypeOf field)) with
         | None => Ok {| values := values st; imports := imports st;
                         stdout := stdout st ++ [diagnosticOf field] |}
         | Some pointerType =>
           let! (imp, typeString) :=
             stripPointer (impOf (fieldTypeString field))
                          (textOf (fieldTypeString field)) in
           Ok (record field imp typeString pointerType st)
         | Some vt =>
           Ok (record field (impOf (fieldTypeString field))
                      (textOf (fieldTypeString field)) vt st)
         end.
Proof.
  unfold fieldStep. destruct (Embedded field); [reflexivity|].
  rewrite splitTypeString_total. cbn [bind].
  destruct (classify (Underlying (TypeOf field))) as [[]|]; reflexivity.
Qed.

(** What one loop body adds. *)
Lemma fieldStep_adds field st st' :
  fieldStep field st = Ok st' ->
  exists vs ds,
    values st' = values st ++ vs
    /\ stdout st' = stdout st ++ ds
    /\ List.map (fun v => (originalName v, valueType v)) vs
       = match categoryOf field with
         | Some vt => [(Name field, vt)]
         | None => []
         end
    /\ ds = if unrecognised field then [diagnosticOf field] else [].
Proof.
  rewrite fieldStep_cases. unfold categoryOf, unrecognised.
  destruct (Embedded field).
  { intros [= <-]. exists [], []. rewrite !app_nil_r. auto. }
  destruct (classify (Underlying (TypeOf field))) as [vt|].
  - assert (forall imp ts, exists vs ds,
              values (record field imp ts vt st) = values st ++ vs
              /\ stdout (record field imp ts vt st) = stdout st ++ ds
              /\ List.map (fun v => (originalName v, valueType v)) vs
                 = [(Name field, vt)]
              /\ ds = []) as Hrec.
    { intros imp ts. eexists [_], []. cbn. rewrite app_nil_r. auto. }
    destruct vt; try (intros [= <-]; apply Hrec).
    destruct (stripPointer _ _) as [[imp ts]|p]; [|discriminate].
    cbn [bind]. intros [= <-]. apply Hrec.
  - intros [= <-]. exists [], [diagnosticOf field]. cbn.
    rewrite app_nil_r. auto.
Qed.

(** X1.  Every field is accounted for once and in declaration order: when
    the loop over the fields completes, the values it has appended are, by
    name and category, the non-embedded fields of recognised shape in field
    order, and the diagnostics it has appended are those of the
    non-embedded fields of unrecognised shape in field order. *)
Theorem fields_are_collected_in_order
    (fields : list Object) (st st' : Collected) :
  structLoop fields st = Ok st' ->
  exists vs,
    values st' = values st ++ vs
    /\ List.map (fun v => (originalName v, valueType v)) vs
       = omap (fun f => pair (Name f) <$> categoryOf f) fields
    /\ stdout st'
       = stdout st ++ List.map diagnosticOf (List.filter unrecognised fields).
Proof.
  revert st. induction fields as [|f fields IH]; intros st.
  - intros [= <-]. exists []. rewrite !app_nil_r. auto.
  - cbn [structLoop]. destruct (fieldStep f st) as [st1|p] eqn:E; [|discriminate].
    cbn [bind]. intros Hloop.
    destruct (fieldStep_adds f st st1 E) as (vs1 & ds1 & Hv1 & Hd1 & Hm1 & ->).
    destruct (IH st1 Hloop) as (vs & Hv & Hm & Hd).
    exists (vs1 ++ vs). split; [|split].
    + rewrite Hv, Hv1, app_assoc. reflexivity.
    + rewrite List.map_app, Hm1, Hm. cbn [omap list_omap].
      destruct (categoryOf f); reflexivity.
    + rewrite Hd, Hd1. cbn [List.filter].
      destruct (unrecognised f); cbn [List.map]; rewrite <- app_assoc; reflexivity.
Qed.

Lemma fields_are_collected_in_order_witness :
  exists vs,
    [ mkValue "color" "string" baseType;
      mkValue "inter" "io.Reader" interfaceType ] = [] ++ vs
    /\ List.map (fun v => (originalName v, valueType v)) vs
       = [ ("color", baseType); ("inter", interfaceType) ]
    /\ [ diagnosticOf example.chanField ]
       = [] ++ [ diagnosticOf example.chanField ].
Proof.
  exact (fields_are_collected_in_order
           [example.var "color" (Basic "string"); example.chanField;
            example.interField]
           collected0
           {| values := [ mkValue "color" "string" baseType;
                          mkValue "inter" "io.Reader" interfaceType ];
              imports := {[ "io" ]} ∪ ∅;
              stdout := [ diagnosticOf example.chanField ] |}
           eq_refl).
Defined.

Lemma sliceFrom_1 s r :
  GoString.sliceFrom s 1 = Ok r -> exists c, s = String c r.
Proof.
  unfold GoString.sliceFrom, GoString.slice.
  destruct s as [|c s].
  - cbn. discriminate.
  - destruct ((0 <=? 1) && (1 <=? GoString.len (String c s))
              && (GoString.len (String c s) <=? GoString.len (String c s)));
      [|discriminate].
    intros [= <-]. exists c. f_equal.
    replace (Z.to_nat (GoString.len (String c s) - 1)) with (String.length s)
      by (unfold GoString.len; cbn [String.length]; lia).
    change (Z.to_nat 1) with 1%nat. cbn [substring].
    clear c. induction s as [|c s IH]; [reflexivity|].
    cbn [String.length substring]. f_equal. exact IH.
Qed.

Lemma len_pos_nonempty s : (0 <? GoString.len s) = true <-> s <> "".
Proof.
  rewrite Z.ltb_lt. unfold GoString.len.
  destruct s; cbn [String.length]; split; intros; try lia; congruence.
Qed.

Lemma fieldStep_imports field st st' :
  fieldStep field st = Ok st' ->
  imports st ⊆ imports st'
  /\ forall p, p ∈ imports st' ->
       p ∈ imports st
       \/ (p <> "" /\ Embedded field = false
           /\ (p = impOf (fieldTypeString field)
               \/ exists c, String c p = impOf (fieldTypeString field))).
Proof.
  rewrite fieldStep_cases. destruct (Embedded field) eqn:He.
  { intros [= <-]. split; [reflexivity | auto]. }
  assert (forall imp ts vt,
            (imp = impOf (fieldTypeString field)
             \/ exists c, String c imp = impOf (fieldTypeString field)) ->
            imports st ⊆ imports (record field imp ts vt st)
            /\ forall p, p ∈ imports (record field imp ts vt st) ->
                 p ∈ imports st
                 \/ (p <> "" /\ false = false
                     /\ (p = impOf (fieldTypeString field)
                         \/ exists c, String c p = impOf (fieldTypeString field))))
    as Hrec.
  { intros imp ts vt Himp. unfold record. cbn [imports].
    destruct (0 <? GoString.len imp) eqn:Hl.
    - apply len_pos_nonempty in Hl. split; [apply union_subseteq_r|].
      intros p [Hp | Hp]%elem_of_union; [|auto].
      apply elem_of_singleton in Hp. subst p. auto.
    - split; [reflexivity | auto]. }
  destruct (classify (Underlying (TypeOf field))) as [vt|].
  - destruct vt; try (intros [= <-]; apply Hrec; auto).
    unfold stripPointer.
    destruct (0 <? GoString.len (impOf (fieldTypeString field))) eqn:Hl.
    + destruct (GoString.sliceFrom (impOf (fieldTypeString field)) 1)
        as [imp|p] eqn:Hs; [|discriminate].
      cbn [bind]. destruct (GoString.sliceFrom (textOf (fieldTypeString field)) 1)
        as [ts|p]; [|discriminate].
      cbn [bind]. intros [= <-]. apply Hrec. right.
      apply sliceFrom_1 in Hs as [c Hc]. eauto.
    + cbn [bind]. destruct (GoString.sliceFrom (textOf (fieldTypeString field)) 1)
        as [ts|p]; [|discriminate].
      cbn [bind]. intros [= <-]. apply Hrec. auto.
  - intros [= <-]. cbn [imports]. split; [reflexivity | auto].
Qed.

(** X2.  The import set only grows, and only by what a field's type text
    shows: when the loop over the fields completes, every path collected
    before is still there, and every new path is not empty and is the text
    before the last dot of the printed type of a non-embedded field, or
    that text without its first byte (the pointer case).  In particular the
    empty path is never recorded. *)
Theorem imports_grow_by_type_qualifiers
    (fields : list Object) (st st' : Collected) :
  structLoop fields st = Ok st' ->
  imports st ⊆ imports st'
  /\ forall p, p ∈ imports st' ->
       p ∈ imports st
       \/ (p <> ""
           /\ exists field,
                field ∈ fields /\ Embedded field = false
                /\ (p = impOf (fieldTypeString field)
                    \/ exists c, String c p = impOf (fieldTypeString field))).
Proof.
  revert st. induction fields as [|f fields IH]; intros st.
  - intros [= <-]. split; [reflexivity | auto].
  - cbn [structLoop]. destruct (fieldStep f st) as [st1|p] eqn:E; [|discriminate].
    cbn [bind]. intros Hloop.
    destruct (fieldStep_imports f st st1 E) as [Hsub1 Hnew1].
    destruct (IH st1 Hloop) as [Hsub Hnew].
    split; [exact (transitivity Hsub1 Hsub)|].
    intros p Hp. destruct (Hnew p Hp) as [Hp1 | (Hne & g & Hg & He & Hq)].
    + destruct (Hnew1 p Hp1) as [? | (Hne & He & Hq)]; [auto|].
      right. split; [exact Hne|]. exists f. split; [apply list_elem_of_here|]. auto.
    + right. split; [exact Hne|]. exists g.
      split; [apply list_elem_of_further, Hg|]. auto.
Qed.

Lemma imports_grow_by_type_qualifiers_witness :
  (∅ : gset string) ⊆ {[ "sync" ]} ∪ ∅
  /\ forall p, p ∈ ({[ "sync" ]} ∪ ∅ : gset string) ->
       p ∈ (∅ : gset string)
       \/ (p <> ""
           /\ exists field,
                field ∈ [example.var "buf2" (Pointer example.tWaitGroup)]
                /\ Embedded field = false
                /\ (p = impOf (fieldTypeString field)
                    \/ exists c, String c p = impOf (fieldTypeString field))).
Proof.
  exact (imports_grow_by_type_qualifiers
           [example.var "buf2" (Pointer example.tWaitGroup)] collected0
           {| values := [ mkValue "buf2" "sync.WaitGroup" pointerType ];
              imports := {[ "sync" ]} ∪ ∅; stdout := [] |}
           eq_refl).
Defined.

Lemma fieldStep_completes field st :
  if completes field
  then exists st', fieldStep field st = Ok st'
  else fieldStep field st = Panic SliceOutOfRange.
Proof.
  rewrite fieldStep_cases. unfold completes.
  destruct (Embedded field); cbn [orb]; [eauto|].
  destruct (classify (Underlying (TypeOf field))) as [vt|];
    [|rewrite bool_decide_eq_false_2 by discriminate; cbn; eauto].
  destruct vt; try (rewrite bool_decide_eq_false_2 by discriminate; cbn; eauto).
  rewrite bool_decide_eq_true_2 by reflexivity. cbn [negb orb].
  destruct (String.eqb (textOf (fieldTypeString field)) "") eqn:Ht; cbn [negb].
  - apply String.eqb_eq in Ht. rewrite Ht. unfold stripPointer.
    destruct (if 0 <? GoString.len (impOf (fieldTypeString field))
              then GoString.sliceFrom (impOf (fieldTypeString field)) 1
              else Ok (impOf (fieldTypeString field))) as [imp|p] eqn:E.
    + reflexivity.
    + destruct (0 <? GoString.len (impOf (fieldTypeString field)));
        [|discriminate].
      revert E. unfold GoString.sliceFrom, GoString.slice.
      destruct (_ && _ && _); [discriminate|]. intros [= <-]. reflexivity.
  - apply String.eqb_neq in Ht.
    destruct (stripPointer_total (impOf (fieldTypeString field)) _ Ht)
      as (imp & ts & ->).
    cbn [bind]. eauto.
Qed.

(** X3.  The one way the loop over the fields can fail: it completes if
    and only if every field is embedded, or is no pointer field, or has a
    non-empty type text after the cut at the last slash; otherwise it
    panics, and the panic is always the slice bounds panic of the pointer
    case. *)
Theorem field_loop_panics_only_on_empty_pointer_text
    (fields : list Object) (st : Collected) :
  if forallb completes fields
  then exists st', structLoop fields st = Ok st'
  else structLoop fields st = Panic SliceOutOfRange.
Proof.
  revert st. induction fields as [|f fields IH]; intros st; [cbn; eauto|].
  cbn [forallb structLoop]. pose proof (fieldStep_completes f st) as Hf.
  destruct (completes f); cbn [andb].
  - destruct Hf as [st1 ->]. cbn [bind]. apply IH.
  - rewrite Hf. reflexivity.
Qed.

(** ** The definitions of the target's name *)

Section FurtherGenerateFacts.

Variable caseTo : unicodeCase -> Utf8.rune -> Utf8.rune.

(** X4.  A target name that no definition of the package carries is no
    error: every run completes, prints nothing, and writes the header
    alone, with an empty import list and no field fragment. *)
Theorem unknown_type_yields_header_only
    (g : Generator) (typeName : string) (r : result Output) :
  named typeName (defs (pkg g)) = [] ->
  generate caseTo g typeName r ->
  r = Ok {| outBuf := Execute (buf g) templateHeader
                        (headerData g typeName []);
            outStdout := [] |}.
Proof.
  intros Hnone [visit order Hv Ho]. unfold generateWith.
  rewrite defsLoop_named.
  assert (named typeName visit = []) as ->.
  { apply Permutation_nil_r. unfold named. rewrite Hv.
    fold (named typeName (defs (pkg g))). rewrite Hnone. reflexivity. }
  cbn [defsLoop bind collected0 imports values stdout valuesLoop].
  assert (order ∅ = []) as ->
    by (apply Permutation_nil_r; rewrite Ho; reflexivity).
  reflexivity.
Qed.

End FurtherGenerateFacts.

Lemma unknown_type_yields_header_only_witness :
  generateWith example.asciiOnly (example.generatorOf example.configFields)
    "Config" (defs (pkg (example.generatorOf example.configFields)))
    example.ascending
  = Ok {| outBuf := Execute "" templateHeader
                      (headerData (example.generatorOf example.configFields)
                                  "Config" []);
          outStdout := [] |}.
Proof.
  apply (unknown_type_yields_header_only example.asciiOnly
           (example.generatorOf example.configFields) "Config").
  - reflexivity.
  - apply generate_run; [reflexivity | intros s; reflexivity].
Defined.

Lemma defsLoop_same_struct typeName fields ds st :
  Forall (fun d => IdentName (fst d) = typeName
                   /\ namedStruct (snd d) = Ok fields) ds ->
  defsLoop typeName ds st = structLoopTimes (length ds) fields st.
Proof.
  intros Hall. revert st. induction Hall as [|d ds [Hn Hs] _ IH]; intros st.
  - reflexivity.
  - cbn [defsLoop length structLoopTimes].
    rewrite defStep_named, Hs by exact Hn. cbn [bind].
    destruct (structLoop fields st) as [st'|p]; [|reflexivity].
    cbn [bind]. apply IH.
Qed.

(** X5.  The fields are collected once per definition of the target's
    name, not once per type: when the definitions of that name all have
    the same named struct type, the loop over [Defs], in whatever order it
    visits them, is the loop over the fields of that struct run as many
    times as there are such definitions. *)
Theorem fields_are_collected_once_per_definition
    (typeName : string) (fields : list Object)
    (ds visit : list (Ident * option Object)) (st : Collected) :
  Forall (fun d => namedStruct (snd d) = Ok fields) (named typeName ds) ->
  visit ≡ₚ ds ->
  defsLoop typeName visit st
  = structLoopTimes (length (named typeName ds)) fields st.
Proof.
  intros Hall Hv.
  assert (named typeName visit ≡ₚ named typeName ds) as Hp
    by (unfold named; rewrite Hv; reflexivity).
  rewrite defsLoop_named, <- (Permutation_length Hp).
  apply defsLoop_same_struct.
  rewrite Hp. apply Forall_forall. intros d Hd. split.
  - apply list_elem_of_filter in Hd. tauto.
  - rewrite Forall_forall in Hall. apply Hall, Hd.
Qed.

Lemma fields_are_collected_once_per_definition_witness :
  defsLoop "config" (reverse (defs example.packageWithField)) collected0
  = Ok {| values := [ mkValue "color" "string" baseType;
                      mkValue "color" "string" baseType ];
          imports := ∅; stdout := [] |}.
Proof.
  apply (fields_are_collected_once_per_definition "config"
           [example.var "color" (Basic "string")]
           (defs example.packageWithField)
           (reverse (defs example.packageWithField)) collected0).
  - repeat constructor.
  - apply reverse_Permutation.
Defined.

(** ** The two cuts of the type text *)

Module CutFacts.
Import GoString.

Lemma occurs_cons c d s : occurs c (String d s) <-> d = c \/ occurs c s.
Proof. reflexivity. Qed.

Lemma occurs_app c s t : occurs c (s +:+ t) <-> occurs c s \/ occurs c t.
Proof.
  induction s as [|d s IH].
  - change ("" +:+ t) with t. unfold occurs at 2. cbn. tauto.
  - rewrite append_cons, !occurs_cons, IH. tauto.
Qed.

Lemma prefix_byte c s :
  String.prefix (String c "") s = true <-> exists s', s = String c s'.
Proof.
  destruct s as [|d s]; cbn.
  - split; [discriminate | intros [s' H]; discriminate].
  - destruct (Ascii.ascii_dec c d) as [->|Hne].
    + split; [eauto | intros _; destruct s; reflexivity].
    + split; [discriminate | intros [s' [= H _]]; congruence].
Qed.

Lemma prefix_byte_false c d s :
  d <> c -> String.prefix (String c "") (String d s) = false.
Proof.
  intros Hne. destruct (String.prefix _ _) eqn:E; [|reflexivity].
  apply prefix_byte in E as [s' [= H _]]. congruence.
Qed.

Lemma lastIndexFrom_absent c s i acc :
  ~ occurs c s -> lastIndexFrom s (String c "") i acc = acc.
Proof.
  revert i acc. induction s as [|d s IH]; intros i acc Hno; [reflexivity|].
  cbn [lastIndexFrom]. rewrite occurs_cons in Hno.
  rewrite prefix_byte_false by tauto. apply IH. tauto.
Qed.

Lemma len_app s t : len (s +:+ t) = len s + len t.
Proof.
  unfold len. induction s as [|d s IH].
  - change ("" +:+ t) with t. cbn [String.length]. lia.
  - rewrite append_cons. cbn [String.length]. lia.
Qed.

Lemma len_cons c s : len (String c s) = 1 + len s.
Proof. unfold len. cbn [String.length]. lia. Qed.

Lemma lastIndexFrom_last c s1 s2 i acc :
  ~ occurs c s2 ->
  lastIndexFrom (s1 +:+ String c s2) (String c "") i acc = i + len s1.
Proof.
  intros Hno. revert i acc. induction s1 as [|d s1 IH]; intros i acc.
  - change ("" +:+ String c s2) with (String c s2). cbn [lastIndexFrom].
    rewrite (proj2 (prefix_byte c (String c s2))) by eauto.
    rewrite lastIndexFrom_absent by exact Hno. unfold len. cbn. lia.
  - rewrite append_cons. cbn [lastIndexFrom]. rewrite IH, len_cons. lia.
Qed.

(** A string either lacks the byte or splits at its last occurrence. *)
Lemma last_occurrence c s :
  ~ occurs c s
  \/ exists s1 s2, s = s1 +:+ String c s2 /\ ~ occurs c s2.
Proof.
  induction s as [|d s IH]; [left; intros []|].
  destruct IH as [Hno | (s1 & s2 & -> & Hno)].
  - destruct (Ascii.ascii_dec d c) as [->|Hne].
    + right. exists "", s. split; [reflexivity | exact Hno].
    + left. rewrite occurs_cons. tauto.
  - right. exists (String d s1), s2. split; [reflexivity | exact Hno].
Qed.

Lemma substring_prefix s t : substring 0 (String.length s) (s +:+ t) = s.
Proof.
  induction s as [|d s IH]; [destruct t; reflexivity|].
  rewrite append_cons. cbn [String.length substring]. f_equal. exact IH.
Qed.

Lemma substring_all s : substring 0 (String.length s) s = s.
Proof.
  induction s as [|d s IH]; [reflexivity|].
  cbn [String.length substring]. f_equal. exact IH.
Qed.

Lemma substring_suffix s t :
  substring (String.length s) (String.length t) (s +:+ t) = t.
Proof.
  induction s as [|d s IH]; [apply substring_all|].
  rewrite append_cons. cbn [String.length substring]. exact IH.
Qed.

Lemma impOf_last_dot s1 s2 :
  ~ occurs "." s2 -> impOf (s1 +:+ String "." s2) = s1.
Proof.
  intros Hno. unfold impOf, LastIndex.
  rewrite lastIndexFrom_last by exact Hno. rewrite Z.add_0_l.
  destruct (0 <? len s1) eqn:E.
  - unfold len. rewrite Nat2Z.id. apply substring_prefix.
  - apply Z.ltb_ge in E. destruct s1; [reflexivity|].
    rewrite len_cons in E. pose proof (GoStringFacts.len_nonneg s1). lia.
Qed.

Lemma impOf_no_dot s : ~ occurs "." s -> impOf s = "".
Proof.
  intros Hno. unfold impOf, LastIndex.
  rewrite lastIndexFrom_absent by exact Hno. reflexivity.
Qed.

Lemma textOf_no_slash s : ~ occurs "/" s -> textOf s = s.
Proof.
  intros Hno. unfold textOf, LastIndex.
  rewrite lastIndexFrom_absent by exact Hno. reflexivity.
Qed.

Lemma textOf_last_slash s1 s2 :
  s1 <> "" -> ~ occurs "/" s2 -> textOf (s1 +:+ String "/" s2) = s2.
Proof.
  intros Hne Hno. unfold textOf, LastIndex.
  rewrite lastIndexFrom_last by exact Hno. rewrite Z.add_0_l.
  assert (0 < len s1) as Hpos
    by (destruct s1; [congruence|];
        rewrite len_cons; pose proof (GoStringFacts.len_nonneg s1); lia).
  rewrite (proj2 (Z.ltb_lt _ _) Hpos), len_app, len_cons.
  replace (Z.to_nat (len s1 + 1)) with (String.length (s1 +:+ "/"))
    by (rewrite <- (Nat2Z.id (String.length (s1 +:+ "/")));
        fold (len (s1 +:+ "/")); rewrite len_app; reflexivity).
  replace (Z.to_nat (len s1 + (1 + len s2) - (len s1 + 1)))
    with (String.length s2) by (unfold len; lia).
  replace (s1 +:+ String "/" s2) with ((s1 +:+ "/") +:+ s2)
    by (rewrite append_assoc; reflexivity).
  apply substring_suffix.
Qed.

Lemma textOf_leading_slash s2 :
  ~ occurs "/" s2 -> textOf (String "/" s2) = String "/" s2.
Proof.
  intros Hno. unfold textOf, LastIndex.
  change (String "/" s2) with ("" +:+ String "/" s2).
  rewrite lastIndexFrom_last by exact Hno. reflexivity.
Qed.

(** The type text of a longer text whose tail has no slash. *)
Lemma textOf_app s t :
  ~ occurs "/" t -> textOf (s +:+ t) = textOf s +:+ t.
Proof.
  intros Hno.
  destruct (last_occurrence "/" s) as [Hs | (s1 & s2 & -> & Hs2)].
  - rewrite (textOf_no_slash s Hs). apply textOf_no_slash.
    rewrite occurs_app. tauto.
  - rewrite append_assoc, append_cons.
    assert (~ occurs "/" (s2 +:+ t)) as Hno' by (rewrite occurs_app; tauto).
    destruct s1 as [|d s1].
    + change ("" +:+ String "/" (s2 +:+ t)) with (String "/" (s2 +:+ t)).
      change ("" +:+ String "/" s2) with (String "/" s2).
      rewrite !textOf_leading_slash by assumption. reflexivity.
    + rewrite !textOf_last_slash by (assumption || discriminate). reflexivity.
Qed.

End CutFacts.

(** X6.  What the two cuts keep: the recorded type text is a suffix of the
    printed type and, unless it is the whole printed type, it follows a
    slash and contains none; the import candidate is empty, or it is the
    part of the printed type before a dot after which no dot follows. *)
Theorem cuts_of_the_type_text (typeString : string) :
  (textOf typeString = typeString
   \/ (exists pre, typeString = pre +:+ String "/" (textOf typeString))
      /\ ~ occurs "/" (textOf typeString))
  /\ (impOf typeString = ""
      \/ exists rest, typeString = impOf typeString +:+ String "." rest
                      /\ ~ occurs "." rest).
Proof.
  split.
  - destruct (CutFacts.last_occurrence "/" typeString)
      as [Hno | (s1 & s2 & -> & Hno)].
    + left. apply CutFacts.textOf_no_slash, Hno.
    + destruct s1 as [|d s1].
      * left. apply CutFacts.textOf_leading_slash, Hno.
      * right. rewrite CutFacts.textOf_last_slash by (assumption || discriminate).
        split; [eauto | exact Hno].
  - destruct (CutFacts.last_occurrence "." typeString)
      as [Hno | (s1 & s2 & -> & Hno)].
    + left. apply CutFacts.impOf_no_dot, Hno.
    + right. rewrite CutFacts.impOf_last_dot by exact Hno. eauto.
Qed.

(** ** Fields of imported types *)

Lemma sliceFrom_cons c s : GoString.sliceFrom (String c s) 1 = Ok s.
Proof.
  unfold GoString.sliceFrom, GoString.slice.
  pose proof (GoStringFacts.len_nonneg s) as Hl.
  rewrite CutFacts.len_cons.
  replace ((0 <=? 1) && (1 <=? 1 + GoString.len s)
           && (1 + GoString.len s <=? 1 + GoString.len s))
    with true by (symmetry; rewrite !andb_true_iff, !Z.leb_le; lia).
  f_equal.
  replace (Z.to_nat (1 + GoString.len s - 1)) with (String.length s)
    by (unfold GoString.len; lia).
  change (Z.to_nat 1) with 1%nat. cbn [substring].
  apply CutFacts.substring_all.
Qed.

Lemma qualified_name (field : Object) (p : types.Package) (n : string) (u : Typ) :
  Pkg field <> Some p -> Path p <> "" ->
  TypeString (RelativeTo (Pkg field)) (Named (Some p) n u)
  = Path p +:+ String "." n.
Proof.
  intros Hp Hne. cbn [TypeString]. unfold RelativeTo.
  destruct (decide (Pkg field = Some p)); [contradiction|].
  destruct (String.eqb (Path p) "") eqn:E; [|reflexivity].
  apply String.eqb_eq in E. contradiction.
Qed.

Lemma record_nonempty field imp ts vt st :
  imp <> "" ->
  record field imp ts vt st
  = {| values := values st ++ [ mkValue (Name field) ts vt ];
       imports := {[ imp ]} ∪ imports st;
       stdout := stdout st |}.
Proof.
  intros Hne. unfold record.
  rewrite (proj2 (len_pos_nonempty imp) Hne). reflexivity.
Qed.

(** X7.  A field whose type is a named type of another package, of a
    recognised shape other than pointer, is imported by the full path of
    that package and referred to by the last element of the path: the loop
    body adds exactly the package path to the import set and records the
    part of the path after its last slash, a dot and the type name. *)
Theorem imported_named_type_is_qualified_by_last_path_element
    (field : Object) (p : types.Package) (n : string) (u : Typ)
    (vt : ValueType) (st : Collected) :
  Embedded field = false ->
  TypeOf field = Named (Some p) n u ->
  Pkg field <> Some p ->
  Path p <> "" ->
  ~ occurs "." n ->
  ~ occurs "/" n ->
  classify (Underlying u) = Some vt ->
  vt <> pointerType ->
  fieldStep field st
  = Ok {| values := values st
                    ++ [ mkValue (Name field)
                                 (textOf (Path p) +:+ String "." n) vt ];
          imports := {[ Path p ]} ∪ imports st;
          stdout := stdout st |}.
Proof.
  intros He Ht Hp Hne Hdot Hslash Hc Hvt.
  assert (fieldTypeString field = Path p +:+ String "." n) as Hts
    by (unfold fieldTypeString; rewrite Ht; apply qualified_name; assumption).
  rewrite (fieldStep_recognised field vt st He)
    by (rewrite ?Ht; cbn [Underlying]; assumption).
  rewrite Hts, CutFacts.impOf_last_dot by exact Hdot.
  rewrite CutFacts.textOf_app
    by (rewrite CutFacts.occurs_cons; intros [[=]|]; contradiction).
  f_equal. apply record_nonempty, Hne.
Qed.

Lemma imported_named_type_is_qualified_by_last_path_element_witness :
  fieldStep example.frameField collected0
  = Ok {| values := [] ++ [ mkValue "frame" ("errors" +:+ String "." "Frame")
                                    baseType ];
          imports := {[ "github.com/pkg/errors" ]} ∪ ∅;
          stdout := [] |}.
Proof.
  apply (imported_named_type_is_qualified_by_last_path_element
           example.frameField example.pkgErrors "Frame" (Basic "uintptr")
           baseType collected0); try reflexivity; try discriminate.
  - cbn. intuition discriminate.
  - cbn. intuition discriminate.
Defined.

(** X8.  A pointer to a named type of another package whose path has no
    slash is recorded as the pointee: the loop body adds the package path
    to the import set and records the path, a dot and the type name, both
    without the pointer marker. *)
Theorem pointer_to_imported_type_without_slash
    (field : Object) (p : types.Package) (n : string) (u : Typ)
    (st : Collected) :
  Embedded field = false ->
  TypeOf field = Pointer (Named (Some p) n u) ->
  Pkg field <> Some p ->
  Path p <> "" ->
  ~ occurs "/" (Path p) ->
  ~ occurs "." n ->
  ~ occurs "/" n ->
  fieldStep field st
  = Ok {| values := values st
                    ++ [ mkValue (Name field) (Path p +:+ String "." n)
                                 pointerType ];
          imports := {[ Path p ]} ∪ imports st;
          stdout := stdout st |}.
Proof.
  intros He Ht Hp Hne Hps Hdot Hslash.
  assert (fieldTypeString field = String "*" (Path p +:+ String "." n)) as Hts.
  { unfold fieldTypeString. rewrite Ht, TypeString_Pointer.
    f_equal. apply qualified_name; assumption. }
  rewrite (fieldStep_pointer field st He) by (rewrite Ht; reflexivity).
  rewrite Hts.
  rewrite <- (append_cons "*" (Path p) (String "." n)).
  rewrite CutFacts.impOf_last_dot by exact Hdot.
  rewrite CutFacts.textOf_no_slash.
  2:{ rewrite CutFacts.occurs_app, !CutFacts.occurs_cons.
      intros [[[=]|]|[[=]|]]; contradiction. }
  unfold stripPointer.
  rewrite (proj2 (len_pos_nonempty (String "*" (Path p)))) by discriminate.
  rewrite append_cons, !sliceFrom_cons. cbn [bind].
  f_equal. apply record_nonempty, Hne.
Qed.

Lemma pointer_to_imported_type_without_slash_witness :
  fieldStep (example.var "buf2" (Pointer example.tWaitGroup)) collected0
  = Ok {| values := [] ++ [ mkValue "buf2" ("sync" +:+ String "." "WaitGroup")
                                    pointerType ];
          imports := {[ "sync" ]} ∪ ∅;
          stdout := [] |}.
Proof.
  apply (pointer_to_imported_type_without_slash
           (example.var "buf2" (Pointer example.tWaitGroup))
           example.pkgSync "WaitGroup" (Struct []) collected0);
    try reflexivity; try discriminate; cbn; intuition discriminate.
Defined.

(** X9.  The import candidate is cut from the printed type, not from the
    type: for a slice of a named type of another package the loop body
    adds to the import set the package path with the slice brackets in
    front of it. *)
Theorem slice_of_imported_type_records_bracketed_path
    (field : Object) (p : types.Package) (n : string) (u : Typ)
    (st : Collected) :
  Embedded field = false ->
  TypeOf field = Slice (Named (Some p) n u) ->
  Pkg field <> Some p ->
  Path p <> "" ->
  ~ occurs "." n ->
  ~ occurs "/" n ->
  fieldStep field st
  = Ok {| values := values st
                    ++ [ mkValue (Name field)
                                 (textOf ("[]" +:+ Path p) +:+ String "." n)
                                 sliceType ];
          imports := {[ "[]" +:+ Path p ]} ∪ imports st;
          stdout := stdout st |}.
Proof.
  intros He Ht Hp Hne Hdot Hslash.
  assert (fieldTypeString field = ("[]" +:+ Path p) +:+ String "." n) as Hts.
  { unfold fieldTypeString. rewrite Ht. cbn [TypeString].
    fold (TypeString (RelativeTo (Pkg field)) (Named (Some p) n u)).
    rewrite qualified_name by assumption. rewrite append_assoc. reflexivity. }
  rewrite (fieldStep_recognised field sliceType st He)
    by (rewrite ?Ht; reflexivity || discriminate).
  rewrite Hts, CutFacts.impOf_last_dot by exact Hdot.
  rewrite CutFacts.textOf_app
    by (rewrite CutFacts.occurs_cons; intros [[=]|]; contradiction).
  reflexivity.
Qed.

Lemma slice_of_imported_type_records_bracketed_path_witness :
  fieldStep (example.var "readers" (Slice example.tReader)) collected0
  = Ok {| values := [] ++ [ mkValue "readers"
                                    ("[]io" +:+ String "." "Reader") sliceType ];
          imports := {[ "[]" +:+ "io" ]} ∪ ∅;
          stdout := [] |}.
Proof.
  apply (slice_of_imported_type_records_bracketed_path
           (example.var "readers" (Slice example.tReader))
           example.pkgIo "Reader" (Underlying example.tReader) collected0);
    try reflexivity; try discriminate; cbn; intuition discriminate.
Defined.

(** ** Names *)

Section FurtherNamingFacts.

Variable caseTo : unicodeCase -> Utf8.rune -> Utf8.rune.

Lemma lowerName_text r a :
  scalars (r :: a) ->
  lowerName caseTo (Utf8.ofRunes (r :: a))
  = Ok (Utf8.ofRunes (ToLower caseTo r :: a)).
Proof.
  intros Hs. unfold lowerName. rewrite (Utf8Facts.runes_ofRunes _ Hs).
  reflexivity.
Qed.

Lemma upperName_text r a :
  scalars (r :: a) ->
  upperName caseTo (Utf8.ofRunes (r :: a))
  = Ok (Utf8.ofRunes (ToUpper caseTo r :: a)).
Proof.
  intros Hs. unfold upperName. rewrite (Utf8Facts.runes_ofRunes _ Hs).
  reflexivity.
Qed.

Lemma scalars_ascii r a :
  0 <= r <= 127 -> scalars a -> scalars (r :: a).
Proof.
  intros Hr Ha. constructor; [|exact Ha].
  apply Utf8Facts.ValidRune_spec. lia.
Qed.

Ltac case_ascii :=
  unfold ToLower, ToUpper, Utf8.MaxASCII;
  repeat match goal with
  | |- context [if ?b then _ else _] =>
    lazymatch b with
    | context [if _ then _ else _] => fail
    | _ => destruct b eqn:?
    end
  end;
  Utf8Facts.bool_lia; try lia; try reflexivity.

Lemma ToLower_ascii r : 0 <= r <= 127 -> 0 <= ToLower caseTo r <= 127.
Proof. intros Hr. case_ascii. Qed.

Lemma ToUpper_ascii r : 0 <= r <= 127 -> 0 <= ToUpper caseTo r <= 127.
Proof. intros Hr. case_ascii. Qed.

Lemma ToLower_ToLower r :
  0 <= r <= 127 -> ToLower caseTo (ToLower caseTo r) = ToLower caseTo r.
Proof. intros Hr. case_ascii. Qed.

Lemma ToUpper_ToUpper r :
  0 <= r <= 127 -> ToUpper caseTo (ToUpper caseTo r) = ToUpper caseTo r.
Proof. intros Hr. case_ascii. Qed.

Lemma ToUpper_ToLower r :
  0 <= r <= 127 -> ToUpper caseTo (ToLower caseTo r) = ToUpper caseTo r.
Proof. intros Hr. case_ascii. Qed.

Lemma ToLower_ToUpper r :
  0 <= r <= 127 -> ToLower caseTo (ToUpper caseTo r) = ToLower caseTo r.
Proof. intros Hr. case_ascii. Qed.

(** X10.  The two name forms forget the case of the first letter: two
    field names that differ only in the case of an ASCII first letter, such
    as [Height] and [height], have the same lower form and the same upper
    form, hence the same option type name and the same factory name. *)
Theorem names_differing_in_first_letter_case_collide
    (c : Utf8.rune) (a : list Utf8.rune) :
  65 <= c <= 90 ->
  scalars a ->
  lowerName caseTo (Utf8.ofRunes (c :: a))
  = lowerName caseTo (Utf8.ofRunes (c + 32 :: a))
  /\ upperName caseTo (Utf8.ofRunes (c :: a))
     = upperName caseTo (Utf8.ofRunes (c + 32 :: a))
  /\ Utf8.ofRunes (c :: a) <> Utf8.ofRunes (c + 32 :: a).
Proof.
  intros Hc Ha.
  assert (scalars (c :: a)) as H1 by (apply scalars_ascii; [lia | exact Ha]).
  assert (scalars (c + 32 :: a)) as H2 by (apply scalars_ascii; [lia | exact Ha]).
  rewrite !lowerName_text, !upperName_text by assumption.
  split; [|split].
  - assert (ToLower caseTo c = ToLower caseTo (c + 32)) as ->
      by case_ascii.
    reflexivity.
  - assert (ToUpper caseTo c = ToUpper caseTo (c + 32)) as ->
      by case_ascii.
    reflexivity.
  - intros E. apply (f_equal Utf8.runes) in E.
    rewrite !Utf8Facts.runes_ofRunes in E by assumption.
    injection E. lia.
Qed.

(** X11.  The two name forms compose as case mappings of the first letter
    do: for a name whose first character is ASCII, lowering a lower form or
    raising an upper form changes nothing, and the upper form of the lower
    form is the upper form of the name (and conversely). *)
Theorem name_forms_compose (r : Utf8.rune) (a : list Utf8.rune) :
  0 <= r <= 127 ->
  scalars a ->
  exists lower upper,
    lowerName caseTo (Utf8.ofRunes (r :: a)) = Ok lower
    /\ upperName caseTo (Utf8.ofRunes (r :: a)) = Ok upper
    /\ lowerName caseTo lower = Ok lower
    /\ upperName caseTo upper = Ok upper
    /\ upperName caseTo lower = Ok upper
    /\ lowerName caseTo upper = Ok lower.
Proof.
  intros Hr Ha.
  exists (Utf8.ofRunes (ToLower caseTo r :: a)),
         (Utf8.ofRunes (ToUpper caseTo r :: a)).
  pose proof (ToLower_ascii r Hr) as Hl. pose proof (ToUpper_ascii r Hr) as Hu.
  rewrite !lowerName_text, !upperName_text
    by (apply scalars_ascii; assumption).
  rewrite ToLower_ToLower, ToUpper_ToUpper, ToUpper_ToLower, ToLower_ToUpper
    by assumption.
  repeat split.
Qed.

End FurtherNamingFacts.

Lemma names_differing_in_first_letter_case_collide_witness :
  lowerName example.asciiOnly "Height" = lowerName example.asciiOnly "height"
  /\ upperName example.asciiOnly "Height" = upperName example.asciiOnly "height"
  /\ "Height" <> "height".
Proof.
  apply (names_differing_in_first_letter_case_collide example.asciiOnly
           72 [101; 105; 103; 104; 116]).
  - lia.
  - repeat constructor.
Defined.

Lemma name_forms_compose_witness :
  exists lower upper,
    lowerName example.asciiOnly "myType" = Ok lower
    /\ upperName example.asciiOnly "myType" = Ok upper
    /\ lowerName example.asciiOnly lower = Ok lower
    /\ upperName example.asciiOnly upper = Ok upper
    /\ upperName example.asciiOnly lower = Ok upper
    /\ lowerName example.asciiOnly upper = Ok lower.
Proof.
  apply (name_forms_compose example.asciiOnly 109 [121; 84; 121; 112; 101]).
  - lia.
  - repeat constructor.
Defined.

(** ** More on the map option *)

Module generatedMore.
Section MapOptionMore.

Import generated.

Context {V : Type}.
Local Abbreviation store := (gmap loc (gmap string V)) (only parsing).
Variable order : gmap string V -> list (string * V).
Hypothesis order_enumerates : forall m, order m ≡ₚ map_to_list m.

(** X12.  A nil map as option changes nothing: [Apply] leaves the field
    as it is, nil included, and leaves the store as it is; in particular
    it does not assign into a nil map. *)
Theorem nil_option_is_no_op (f : mapRef) (h : store) :
  Apply order None (f, h) = Ok (f, h).
Proof.
  unfold Apply. cbn [entries].
  assert (order (∅ : gmap string V) = []) as ->.
  { apply Permutation_nil_r. rewrite order_enumerates, map_to_list_empty.
    reflexivity. }
  destruct f; reflexivity.
Qed.

Lemma foldl_union_ext (g1 g2 : mapRef -> gmap string V) os acc :
  Forall (fun o => g1 o = g2 o) os ->
  foldl (fun acc o => g1 o ∪ acc) acc os
  = foldl (fun acc o => g2 o ∪ acc) acc os.
Proof.
  intros Hall. revert acc. induction Hall as [|o os Ho _ IH]; intros acc.
  - reflexivity.
  - cbn [foldl]. rewrite Ho. apply IH.
Qed.

(** X13.  Once the field holds a map, the options are read and only that
    map is written: applying options none of which is the field's own map
    leaves the field pointing to the same map, whose entries become those
    of the options laid over the old entries in call order (a later option
    wins), and leaves the entries of every other map, the options' own
    maps included, as they were. *)
Theorem options_accumulate_in_call_order
    (os : list mapRef) (l : loc) (h : store) :
  Forall (fun o => o <> Some l) os ->
  exists h',
    ApplyAll order os (Some l, h) = Ok (Some l, h')
    /\ h' !!! l = foldl (fun acc o => entries o h ∪ acc) (h !!! l) os
    /\ forall m, m <> Some l -> entries m h' = entries m h.
Proof.
  intros Hall. revert h. induction Hall as [|o os Ho Hos IH]; intros h.
  - exists h. cbn. auto.
  - cbn [ApplyAll foldl].
    destruct (generatedFacts.Apply_merges order order_enumerates o (Some l) h)
      as (f1 & h1 & E & -> & He & Hother).
    unfold mapRef in *. rewrite E. cbn [bind].
    destruct (IH h1) as (h' & E' & Hl & Hother').
    exists h'. split; [exact E'|]. split.
    + rewrite Hl. cbn [entries] in He. rewrite He.
      apply foldl_union_ext.
      apply Forall_forall. intros o' Ho'. apply Hother.
      rewrite Forall_forall in Hos. apply Hos, Ho'.
    + intros m Hm. rewrite Hother' by exact Hm. apply Hother, Hm.
Qed.

(** X14.  The first map option shares its map with the record: after
    [New(WithF(a), WithF(b))] with a non-nil [a], the field is the map [a]
    itself, and that map, which the caller still holds, has received the
    entries of [b]. *)
Theorem first_option_map_is_shared (la : loc) (b : mapRef) (h : store) :
  exists h',
    New order [With (Some la); With b] h = Ok (Some la, h')
    /\ h' !!! la = entries b h ∪ h !!! la.
Proof.
  unfold New, With. cbn [ApplyAll].
  destruct (generatedFacts.Apply_merges order order_enumerates (Some la) None h)
    as (f1 & h1 & E1 & -> & He1 & Ho1).
  unfold mapRef in *. rewrite E1. cbn [bind].
  destruct (generatedFacts.Apply_merges order order_enumerates b (Some la) h1)
    as (f2 & h2 & E2 & -> & He2 & _).
  unfold mapRef in *. rewrite E2. cbn [bind]. exists h2.
  split; [reflexivity|].
  cbn [entries] in He1, He2. rewrite (right_id_L ∅ (∪)) in He1.
  rewrite He2, He1. f_equal.
  destruct (decide (b = Some la)) as [->|Hne]; [exact He1 | apply Ho1, Hne].
Qed.

End MapOptionMore.
End generatedMore.

Lemma nil_option_is_no_op_witness :
  generated.Apply map_to_list None (None, example.storeXY)
  = Ok (None, example.storeXY).
Proof.
  exact (generatedMore.nil_option_is_no_op map_to_list
           (fun m => Permutation_refl (map_to_list m)) None example.storeXY).
Defined.

Lemma options_accumulate_in_call_order_witness :
  exists h',
    generated.ApplyAll map_to_list [Some 2%positive; None]
      (Some 1%positive, example.storeXY) = Ok (Some 1%positive, h')
    /\ h' !!! 1%positive
       = foldl (fun acc o => generated.entries o example.storeXY ∪ acc)
               (example.storeXY !!! 1%positive) [Some 2%positive; None]
    /\ forall m, m <> Some 1%positive ->
         generated.entries m h' = generated.entries m example.storeXY.
Proof.
  apply (generatedMore.options_accumulate_in_call_order map_to_list
           (fun m => Permutation_refl (map_to_list m))
           [Some 2%positive; None] 1%positive example.storeXY).
  repeat constructor; discriminate.
Defined.

Lemma first_option_map_is_shared_witness :
  exists h',
    generated.New map_to_list
      [generated.With (Some 1%positive); generated.With (Some 2%positive)]
      example.storeXY = Ok (Some 1%positive, h')
    /\ h' !!! 1%positive = example.mapY ∪ example.mapX.
Proof.
  exact (generatedMore.first_option_map_is_shared map_to_list
           (fun m => Permutation_refl (map_to_list m))
           1%positive (Some 2%positive) example.storeXY).
Defined.

(** ** The syntax-only generator *)

Module syntaxFacts.
Section FromFieldFacts.

Import syntax.

Variable Fprint : ast.Expr -> string.

Lemma Tree_induction (P : ast.Tree -> Prop) :
  (forall n cs, Forall P cs -> P (ast.mkTree n cs)) -> forall t, P t.
Proof.
  intros H. fix IH 1. intros [n cs]. apply H.
  induction cs as [|c cs IHcs]; constructor; [apply IH | exact IHcs].
Qed.

Lemma structType_nil typeName w :
  structType Fprint typeName None w = Ok (true, w).
Proof. reflexivity. Qed.

(** The callback never stops the inspection. *)
Lemma structType_continues typeName n w :
  (exists w', structType Fprint typeName n w = Ok (true, w'))
  \/ structType Fprint typeName n w = Panic NilDereference.
Proof.
  unfold structType.
  destruct n as [[name [[spec ty|]|]|]|]; eauto.
  destruct (negb (String.eqb name typeName)); eauto.
  destruct ty; eauto.
  all: destruct (negb (String.eqb name typeName)); eauto.
Qed.

Lemma visitAll_app typeName l1 l2 w :
  visitAll Fprint typeName (l1 ++ l2) w
  = (let! w1 := visitAll Fprint typeName l1 w in
     visitAll Fprint typeName l2 w1).
Proof.
  revert w. induction l1 as [|n l1 IH]; intros w; [reflexivity|].
  cbn [app visitAll].
  destruct (structType Fprint typeName n w) as [[b w']|p]; [|reflexivity].
  cbn [bind]. apply IH.
Qed.

(** The inspection is the fold of the callback over the calls. *)
Lemma Inspect_calls typeName t w :
  ast.Inspect (structType Fprint typeName) t w
  = visitAll Fprint typeName (ast.calls t) w.
Proof.
  revert w. induction t as [n cs IH] using Tree_induction. intros w.
  cbn [ast.Inspect ast.calls visitAll].
  destruct (structType_continues typeName (Some n) w) as [[w1 ->] | ->];
    [|reflexivity].
  cbn [bind]. rewrite visitAll_app.
  assert (forall s,
            (fix each (ts : list ast.Tree) (s : Walk) : result Walk :=
               match ts with
               | [] => Ok s
               | t' :: ts' =>
                 let! s' := ast.Inspect (structType Fprint typeName) t' s in
                 each ts' s'
               end) cs s
            = visitAll Fprint typeName (List.concat (List.map ast.calls cs)) s)
    as ->.
  { induction IH as [|c cs Hc _ IHcs]; intros s; [reflexivity|].
    cbn [List.map List.concat]. rewrite visitAll_app, Hc.
    destruct (visitAll Fprint typeName (ast.calls c) s); [|reflexivity].
    cbn [bind]. apply IHcs. }
  destruct (visitAll Fprint typeName _ w1) as [w2|p]; [|reflexivity].
  reflexivity.
Qed.

Lemma fieldsLoop_spec fields w :
  fieldsLoop Fprint fields w
  = {| walkValues := walkValues w ++ omap (kept Fprint) fields;
       walkLog := walkLog w ++ omap (warning Fprint) fields |}.
Proof.
  revert w. induction fields as [|f fields IH]; intros w.
  - cbn. rewrite !app_nil_r. destruct w; reflexivity.
  - cbn [fieldsLoop omap list_omap].
    change (kept Fprint f)
      with (match fromField Fprint f with
            | (val, None) => Some val
            | (_, Some _) => None
            end).
    change (warning Fprint f)
      with (match fromField Fprint f with
            | (_, Some e) => Some ("Warning: " +:+ e)
            | (_, None) => None
            end).
    destruct (fromField Fprint f) as [val [e|]]; rewrite IH;
      cbn [walkValues walkLog]; rewrite <- ?app_assoc; reflexivity.
Qed.

Lemma structType_struct typeName spec fields w :
  structType Fprint typeName
    (Some (ast.IdentNode typeName
             (Some (ast.TypeSpec spec (ast.StructType fields))))) w
  = Ok (true, {| walkValues := omap (kept Fprint) fields;
                 walkLog := walkLog w ++ omap (warning Fprint) fields |}).
Proof.
  unfold structType. rewrite String.eqb_refl. cbn [negb].
  rewrite fieldsLoop_spec. reflexivity.
Qed.

Lemma structType_passed typeName n w :
  passedOver typeName n = true ->
  structType Fprint typeName n w = Ok (true, w).
Proof.
  intros Hn. unfold structType, passedOver in *.
  destruct n as [[name [[spec ty|]|]|]|]; try reflexivity;
    try (destruct (negb (String.eqb name typeName)); reflexivity).
  rewrite Hn. reflexivity.
Qed.

(** X15.  What [structType] keeps of a struct: the declarations of its
    field list are split, each in its place, into values and warnings.  A
    declaration gives a value, under its name, exactly when it has one
    name and its type is an identifier, an array or slice, a map, a
    function or a pointer type; every other declaration -- embedded, of
    several names, or of another type -- gives a warning and no value.
    Whatever the file had collected before is dropped. *)
Theorem struct_declarations_split_into_values_and_warnings
    (typeName spec : string) (fields : list ast.Field) (w : Walk) :
  structType Fprint typeName
    (Some (ast.IdentNode typeName
             (Some (ast.TypeSpec spec (ast.StructType fields))))) w
  = Ok (true, {| walkValues := omap (kept Fprint) fields;
                 walkLog := walkLog w ++ omap (warning Fprint) fields |})
  /\ (length (omap (kept Fprint) fields)
      + length (omap (warning Fprint) fields) = length fields)%nat
  /\ forall field,
       match kept Fprint field with
       | Some v =>
         ast.Names field = [originalName v]
         /\ supported (ast.FieldType field) = true
         /\ warning Fprint field = None
       | None =>
         (length (ast.Names field) <> 1%nat
          \/ supported (ast.FieldType field) = false)
         /\ exists e, warning Fprint field = Some e
       end.
Proof.
  split; [|split].
  - apply structType_struct.
  - induction fields as [|f fields IH]; [reflexivity|].
    cbn [omap list_omap length].
    change (kept Fprint f)
      with (match fromField Fprint f with
            | (val, None) => Some val
            | (_, Some _) => None
            end).
    change (warning Fprint f)
      with (match fromField Fprint f with
            | (_, Some e) => Some ("Warning: " +:+ e)
            | (_, None) => None
            end).
    destruct (fromField Fprint f) as [val [e|]]; cbn [length]; lia.
  - intros [names ty]. unfold kept, warning, fromField.
    cbn [ast.Names ast.FieldType].
    destruct names as [|name [|name' names]];
      [split; [left; cbn; lia | eauto] | |
       split; [left; cbn; lia | eauto]].
    destruct ty; cbn [supported originalName length];
      first [ split; [reflexivity | split; reflexivity]
            | split; [right; reflexivity | eauto] ].
Qed.

Lemma visitAll_passed typeName nodes w :
  forallb (passedOver typeName) nodes = true ->
  visitAll Fprint typeName nodes w = Ok w.
Proof.
  revert w. induction nodes as [|n nodes IH]; intros w; [reflexivity|].
  cbn [forallb visitAll]. intros [Hn Hrest]%andb_true_iff.
  rewrite structType_passed by exact Hn. cbn [bind]. apply IH, Hrest.
Qed.

Lemma visitAll_panics typeName nodes w :
  if existsb (nonStructSpec typeName) nodes
  then visitAll Fprint typeName nodes w = Panic NilDereference
  else exists w', visitAll Fprint typeName nodes w = Ok w'.
Proof.
  revert w. induction nodes as [|n nodes IH]; intros w; [cbn; eauto|].
  cbn [existsb visitAll].
  destruct (nonStructSpec typeName n) eqn:Hn; cbn [orb].
  - unfold nonStructSpec in Hn.
    destruct n as [[name [[spec ty|]|]|]|]; try discriminate.
    apply andb_true_iff in Hn as [Hname Hty]. unfold structType.
    rewrite Hname. cbn [negb]. destruct ty; try discriminate; reflexivity.
  - destruct (structType_continues typeName n w) as [[w1 E] | E].
    + rewrite E. cbn [bind]. apply IH.
    + exfalso. unfold structType, nonStructSpec in *.
      destruct n as [[name [[spec ty|]|]|]|]; try discriminate.
      * destruct (String.eqb name typeName); cbn [negb andb] in *;
          [|discriminate].
        destruct ty; discriminate.
      * destruct (negb (String.eqb name typeName)); discriminate.
      * destruct (negb (String.eqb name typeName)); discriminate.
Qed.

(** X16.  Naming a type that is not a struct is fatal in the syntax-only
    generator: the inspection of a file panics, by nil dereference, exactly
    when it reaches an identifier of the target's name that resolves to the
    specification of a type other than a struct type; otherwise it
    completes. *)
Theorem inspection_panics_on_non_struct_type
    (typeName : string) (t : ast.Tree) (w : Walk) :
  if existsb (nonStructSpec typeName) (ast.calls t)
  then ast.Inspect (structType Fprint typeName) t w = Panic NilDereference
  else exists w', ast.Inspect (structType Fprint typeName) t w = Ok w'.
Proof. rewrite Inspect_calls. apply visitAll_panics. Qed.

Lemma meetings_cons typeName n nodes :
  meetings typeName (n :: nodes)
  = (if passedOver typeName n then meetings typeName nodes
     else S (meetings typeName nodes)).
Proof.
  unfold meetings. cbn [List.filter].
  destruct (passedOver typeName n); reflexivity.
Qed.

Lemma meetings_none typeName nodes :
  meetings typeName nodes = O <-> forallb (passedOver typeName) nodes = true.
Proof.
  induction nodes as [|n nodes IH]; [split; reflexivity|].
  rewrite meetings_cons. cbn [forallb].
  destruct (passedOver typeName n); cbn [andb]; [exact IH|].
  split; discriminate.
Qed.

Lemma visitAll_struct typeName fields nodes w :
  Forall (fun n => passedOver typeName n = true
                   \/ structSpec typeName fields n) nodes ->
  visitAll Fprint typeName nodes w
  = Ok {| walkValues := match meetings typeName nodes with
                        | O => walkValues w
                        | S _ => omap (kept Fprint) fields
                        end;
          walkLog := walkLog w
                     ++ List.concat
                          (replicate (meetings typeName nodes)
                                     (omap (warning Fprint) fields)) |}.
Proof.
  intros Hall. revert w.
  induction Hall as [|n nodes Hn _ IH]; intros w.
  - cbn. rewrite app_nil_r. destruct w. reflexivity.
  - cbn [visitAll]. rewrite meetings_cons. destruct Hn as [Hp | [spec ->]].
    + rewrite structType_passed by exact Hp. cbn [bind].
      rewrite Hp. apply IH.
    + rewrite structType_struct. cbn [bind passedOver].
      rewrite String.eqb_refl. cbn [negb].
      rewrite IH. cbn [walkValues walkLog]. f_equal.
      f_equal; [destruct (meetings typeName nodes); reflexivity|].
      cbn [replicate List.concat]. rewrite <- app_assoc. reflexivity.
Qed.

End FromFieldFacts.
End syntaxFacts.

Module syntaxFacts2.
Section InspectFacts.

Import syntax.

Variable Fprint : ast.Expr -> string.

(** X17.  The syntax-only generator overwrites where the type-checked one
    appends: when every identifier of the target's name that the
    inspection of a file meets resolves to the same struct specification,
    the values of the file are, however often the name is met, those of
    the struct once -- and what was held before if it is never met --
    while the warnings of the struct are logged once per meeting: as often
    as the calls of the inspection have such an identifier. *)
Theorem inspection_keeps_the_struct_once
    (typeName : string) (fields : list ast.Field) (t : ast.Tree) (w : Walk) :
  Forall (fun n => passedOver typeName n = true
                   \/ structSpec typeName fields n) (ast.calls t) ->
  ast.Inspect (structType Fprint typeName) t w
  = Ok {| walkValues := match meetings typeName (ast.calls t) with
                        | O => walkValues w
                        | S _ => omap (kept Fprint) fields
                        end;
          walkLog := walkLog w
                     ++ List.concat
                          (replicate (meetings typeName (ast.calls t))
                                     (omap (warning Fprint) fields)) |}
  /\ (meetings typeName (ast.calls t) = O
      <-> forallb (passedOver typeName) (ast.calls t) = true).
Proof.
  intros Hall. split; [|apply syntaxFacts.meetings_none].
  rewrite syntaxFacts.Inspect_calls.
  apply syntaxFacts.visitAll_struct, Hall.
Qed.

(** X18.  A target name that no file resolves to a type specification is
    no error in the syntax-only generator either: the loop over the files
    completes and adds no value and no log line, nil files included. *)
Theorem files_without_the_name_add_nothing
    (typeName : string) (files : list (option ast.Tree))
    (values : list Value) (log : list string) :
  Forall (fun file => match file with
                      | Some t =>
                        forallb (passedOver typeName) (ast.calls t) = true
                      | None => True
                      end) files ->
  collectFiles Fprint typeName files values log = Ok (values, log).
Proof.
  intros Hall. revert values log.
  induction Hall as [|file files Hf _ IH]; intros values log; [reflexivity|].
  cbn [collectFiles]. destruct file as [t|]; [|apply IH].
  rewrite syntaxFacts.Inspect_calls, syntaxFacts.visitAll_passed by exact Hf.
  cbn [bind walkValues walkLog]. rewrite app_nil_r. apply IH.
Qed.

End InspectFacts.
End syntaxFacts2.

Lemma inspection_keeps_the_struct_once_witness :
  ast.Inspect (syntax.structType exampleSyntax.print "config")
              exampleSyntax.file exampleSyntax.walk0
  = Ok {| syntax.walkValues :=
            omap (syntax.kept exampleSyntax.print) exampleSyntax.structFields;
          syntax.walkLog :=
            [] ++ List.concat
                    (replicate 2 (omap (syntax.warning exampleSyntax.print)
                                       exampleSyntax.structFields)) |}
  /\ (syntax.meetings "config" (ast.calls exampleSyntax.file) = O
      <-> forallb (syntax.passedOver "config") (ast.calls exampleSyntax.file)
          = true).
Proof.
  refine (syntaxFacts2.inspection_keeps_the_struct_once exampleSyntax.print
            "config" exampleSyntax.structFields exampleSyntax.file
            exampleSyntax.walk0 _).
  unfold exampleSyntax.file, exampleSyntax.leaf.
  cbn [ast.calls List.map List.concat app].
  repeat (apply List.Forall_cons;
          [first [ left; reflexivity
                 | right; exists "config"; reflexivity ]|]).
  apply List.Forall_nil.
Defined.

Lemma files_without_the_name_add_nothing_witness :
  syntax.collectFiles exampleSyntax.print "Config"
    [Some exampleSyntax.file; None] [] []
  = Ok ([], []).
Proof.
  apply (syntaxFacts2.files_without_the_name_add_nothing exampleSyntax.print
           "Config" [Some exampleSyntax.file; None] [] []).
  apply List.Forall_cons; [reflexivity|].
  apply List.Forall_cons; [exact I | apply List.Forall_nil].
Defined.

(** The example: the struct is met twice, its two supported single-name
    declarations are kept once, and its four warnings are logged twice. *)
Lemma inspection_of_the_example :
  ast.Inspect (syntax.structType exampleSyntax.print "config")
              exampleSyntax.file exampleSyntax.walk0
  = Ok {| syntax.walkValues :=
            [ mkValue "color" "string" baseType;
              mkValue "slice" "[]int" sliceType ];
          syntax.walkLog :=
            [ "Warning: No support for embedded types currently";
              "Warning: *ast.SelectorExpr not supported yet";
              "Warning: No support for embedded types currently";
              "Warning: Unknown type *ast.ChanType not supported yet";
              "Warning: No support for embedded types currently";
              "Warning: *ast.SelectorExpr not supported yet";
              "Warning: No support for embedded types currently";
              "Warning: Unknown type *ast.ChanType not supported yet" ] |}
  /\ ast.Inspect (syntax.structType exampleSyntax.print "MyType")
                 exampleSyntax.file exampleSyntax.walk0
     = Panic NilDereference.
Proof. split; reflexivity. Qed.

(** ** The command line *)

Module cmdFacts.

Lemma mapBytes_cons f c s :
  strings.mapBytes f (String c s) = String (f c) (strings.mapBytes f s).
Proof. reflexivity. Qed.

Lemma mapBytes_app f s t :
  strings.mapBytes f (s +:+ t) = strings.mapBytes f s +:+ strings.mapBytes f t.
Proof.
  induction s as [|c s IH]; [reflexivity|].
  rewrite append_cons, !mapBytes_cons, append_cons, IH. reflexivity.
Qed.

Lemma isASCII_app s t :
  strings.isASCII (s +:+ t) = strings.isASCII s && strings.isASCII t.
Proof.
  induction s as [|c s IH]; [reflexivity|].
  rewrite append_cons. unfold strings.isASCII in *.
  cbn [list_ascii_of_string forallb]. rewrite IH, andb_assoc. reflexivity.
Qed.

Lemma splitFrom_not_nil s sep k cur : strings.splitFrom s sep k cur <> [].
Proof.
  revert k cur. induction s as [|c s IH]; intros k cur; [discriminate|].
  cbn [strings.splitFrom]. destruct k; [|apply IH].
  destruct (String.prefix sep (String c s)); [discriminate | apply IH].
Qed.

Lemma concat_cons sep x xs :
  xs <> [] -> String.concat sep (x :: xs) = x +:+ sep +:+ String.concat sep xs.
Proof. destruct xs; [congruence | reflexivity]. Qed.

Lemma Join_splitFrom s cur :
  strings.Join (strings.splitFrom s "," 0 cur) " "
  = cur +:+ cmd.commasToSpaces s.
Proof.
  unfold strings.Join, cmd.commasToSpaces.
  revert cur. induction s as [|c s IH]; intros cur.
  - cbn. rewrite append_nil_r. reflexivity.
  - cbn [strings.splitFrom]. rewrite mapBytes_cons.
    destruct (String.prefix "," (String c s)) eqn:E.
    + apply CutFacts.prefix_byte in E as [s' [= -> _]].
      change (String.length "," - 1)%nat with 0%nat.
      rewrite concat_cons by apply splitFrom_not_nil.
      rewrite IH. reflexivity.
    + rewrite IH, append_assoc. do 2 f_equal.
      destruct (Ascii.eqb c ",") eqn:Ec; [|reflexivity].
      apply Ascii.eqb_eq in Ec. subst c.
      rewrite (proj2 (CutFacts.prefix_byte "," (String "," s))) in E
        by eauto.
      discriminate.
Qed.

End cmdFacts.

(** X19.  What the loader is told about build tags: always exactly one
    build flag, [-tags=] followed by the value of the [-tags] option with
    every comma replaced by a space and nothing else changed; and the list
    of tags is empty exactly when the option is empty. *)
Theorem build_flag_is_tags_with_commas_as_spaces (buildTags : string) :
  cmd.BuildFlags (cmd.tagsOf buildTags)
  = [ "-tags=" +:+ cmd.commasToSpaces buildTags ]
  /\ (cmd.tagsOf buildTags = [] <-> buildTags = "").
Proof.
  unfold cmd.BuildFlags, cmd.tagsOf.
  destruct buildTags as [|c s].
  - split; [reflexivity | tauto].
  - rewrite (proj2 (len_pos_nonempty (String c s))) by discriminate.
    unfold strings.Split. cbn [String.eqb].
    rewrite cmdFacts.Join_splitFrom. split; [reflexivity|].
    split; [intros H; exfalso; exact (cmdFacts.splitFrom_not_nil _ _ _ _ H)
           | discriminate].
Qed.

Section OutputNameFacts.

Variable caseTo : unicodeCase -> Utf8.rune -> Utf8.rune.
Variable filepathJoin : string -> string -> string.

(** X20.  The file that is written: for an ASCII type name and no
    [-output] value, the file is in the directory under the name of the
    type in lower case followed by [_string.go], so that type names that
    differ only in the case of their letters share one default file; a
    non-empty [-output] value is used as it is, without the directory. *)
Theorem default_output_is_lower_case_type_string_go
    (genType dir : string) :
  strings.isASCII genType = true ->
  cmd.outputName caseTo filepathJoin "" genType dir
  = filepathJoin dir
      (strings.mapBytes strings.lowerByte genType +:+ "_string.go")
  /\ forall output,
       output <> "" ->
       cmd.outputName caseTo filepathJoin output genType dir = output.
Proof.
  intros Ha. unfold cmd.outputName. split.
  - cbn [String.eqb]. unfold strings.ToLowerString.
    rewrite cmdFacts.isASCII_app, Ha. cbn [andb].
    change (strings.isASCII "_string.go") with true. cbn iota.
    rewrite cmdFacts.mapBytes_app. reflexivity.
  - intros output Hne. destruct (String.eqb output "") eqn:E; [|reflexivity].
    apply String.eqb_eq in E. contradiction.
Qed.

End OutputNameFacts.

Lemma default_output_is_lower_case_type_string_go_witness :
  cmd.outputName example.asciiOnly exampleSyntax.join "" "Config" "pkg"
  = "pkg/config_string.go"
  /\ forall output,
       output <> "" ->
       cmd.outputName example.asciiOnly exampleSyntax.join output "Config" "pkg"
       = output.
Proof.
  exact (default_output_is_lower_case_type_string_go example.asciiOnly
           exampleSyntax.join "Config" "pkg" eq_refl).
Defined.

(** * Skipped fields and the generated unit *)

(** [Underlying] never yields a named type or a type parameter. *)
Lemma Underlying_resolved t :
  match Underlying t with
  | Named _ _ _ | TypeParam _ _ => False
  | _ => True
  end.
Proof.
  induction t as [| | | | | | | | |p n u IH|n bound IH];
    cbn [Underlying]; try exact I.
  - exact IH.
  - destruct bound; try exact I; destruct (Underlying _); exact I.
Qed.

(** The shapes the type switch has no case for are the channel types. *)
Lemma unrecognised_is_channel t :
  classify (Underlying t) = None ->
  exists dir elem, Underlying t = Chan dir elem.
Proof.
  pose proof (Underlying_resolved t) as H.
  destruct (Underlying t); cbn [classify]; intros Hc;
    first [discriminate | contradiction | eauto].
Qed.

(** A field whose type is a bare type parameter is an interface field. *)
Lemma type_parameter_is_interface n bound :
  classify (Underlying (TypeParam n bound)) = Some interfaceType.
Proof.
  cbn [Underlying].
  destruct bound; try reflexivity; destruct (Underlying _); reflexivity.
Qed.

(** What the loop over the fields, started with nothing, has collected. *)
Lemma structLoop_collected fields st' :
  structLoop fields collected0 = Ok st' ->
  List.map (fun v => (originalName v, valueType v)) (values st')
  = omap (fun f => pair (Name f) <$> categoryOf f) fields
  /\ stdout st' = List.map diagnosticOf (List.filter unrecognised fields).
Proof.
  assert (forall st st',
            structLoop fields st = Ok st' ->
            exists vs,
              values st' = values st ++ vs
              /\ List.map (fun v => (originalName v, valueType v)) vs
                 = omap (fun f => pair (Name f) <$> categoryOf f) fields
              /\ stdout st'
                 = stdout st
                   ++ List.map diagnosticOf (List.filter unrecognised fields))
    as Hgen.
  { induction fields as [|f fields IH]; intros st st1.
    - intros [= <-]. exists []. rewrite !app_nil_r. auto.
    - cbn [structLoop].
      destruct (fieldStep f st) as [st0|p] eqn:E; [|discriminate].
      cbn [bind]. intros Hloop.
      destruct (fieldStep_adds f st st0 E) as (vs0 & ds0 & Hv0 & Hd0 & Hm0 & ->).
      destruct (IH st0 st1 Hloop) as (vs & Hv & Hm & Hd).
      exists (vs0 ++ vs). split; [|split].
      + rewrite Hv, Hv0, app_assoc. reflexivity.
      + rewrite List.map_app, Hm0, Hm. cbn [omap list_omap].
        destruct (categoryOf f); reflexivity.
      + rewrite Hd, Hd0. cbn [List.filter].
        destruct (unrecognised f); cbn [List.map];
          rewrite <- app_assoc; reflexivity. }
  intros Hloop. destruct (Hgen collected0 st' Hloop) as (vs & Hv & Hm & Hd).
  cbn [collected0 values stdout app] in Hv, Hd. subst vs. auto.
Qed.

Section UnitFacts.

Variable caseTo : unicodeCase -> Utf8.rune -> Utf8.rune.

(** What the loop over the values writes for one value is its fragment. *)
Lemma valueStep_fragmentOf v :
  valueStep caseTo v "" = fragmentOf caseTo v.
Proof.
  unfold valueStep, fragmentOf, valueData.
  destruct v as [name ty vt]. cbn [valueType originalName originalType].
  destruct vt; cbn [temps]; try reflexivity;
    destruct (lowerName caseTo name) as [lower|p]; cbn [bind];
      try reflexivity;
    destruct (upperName caseTo name) as [upper|p]; cbn [bind];
      try reflexivity;
    unfold Execute; cbn [String.append];
    match goal with
    | |- context [fragmentText ?vt _ _ _ _] =>
      rewrite (fragment_text name lower upper ty vt _ eq_refl)
    end; reflexivity.
Qed.

Lemma valuesLoop_fragments vs :
  valuesLoop caseTo vs "" = fragments caseTo vs.
Proof.
  induction vs as [|v vs IH]; [reflexivity|].
  cbn [valuesLoop fragments]. rewrite valueStep_fragmentOf.
  destruct (fragmentOf caseTo v) as [fragment|p]; [|reflexivity].
  cbn [bind]. rewrite valuesLoop_buf, IH.
  destruct (fragments caseTo vs); reflexivity.
Qed.

(** A run over a package in which one definition carries the target's
    name, that of a named struct type: the loop over its fields decides
    the outcome, and the text is the header followed by the fragments of
    the collected values. *)
Lemma run_of_one_definition g typeName d fields r :
  named typeName (defs (pkg g)) = [d] ->
  namedStruct (snd d) = Ok fields ->
  generate caseTo g typeName r ->
  match structLoop fields collected0 with
  | Ok st =>
    exists importList,
      importList ≡ₚ elements (imports st)
      /\ r = (let! body := fragments caseTo (values st) in
              Ok {| outBuf := Execute (buf g) templateHeader
                                (headerData g typeName importList) +:+ body;
                    outStdout := stdout st |})
  | Panic p => r = Panic p
  end.
Proof.
  intros Hd Hs [visit order Hv Ho]. unfold generateWith.
  assert (IdentName (fst d) = typeName) as Hn.
  { assert (d ∈ named typeName (defs (pkg g))) as Hin
      by (rewrite Hd; apply list_elem_of_here).
    apply list_elem_of_filter in Hin. tauto. }
  rewrite (defsLoop_visit typeName visit (defs (pkg g)) collected0 Hv)
    by (rewrite Hd; cbn; lia).
  rewrite defsLoop_named, Hd. cbn [defsLoop].
  rewrite defStep_named by exact Hn. rewrite Hs. cbn [bind].
  destruct (structLoop fields collected0) as [st|p]; [|reflexivity].
  cbn [bind]. exists (order (imports st)). split; [apply Ho|].
  rewrite valuesLoop_buf, valuesLoop_fragments.
  destruct (fragments caseTo (values st)); reflexivity.
Qed.


(** C8, amended.  A field whose underlying type the type switch has no
    case for -- which, a type parameter having an interface as underlying
    type, leaves the channel types -- costs one diagnostic and nothing
    else.  Where one definition carries the target's name and the other
    fields cause no panic, every run of [generate] completes; the
    diagnostic of the field, with its name, its type text and the channel
    type, whose dynamic type [%T] prints, stands among the diagnostics of
    the other fields where the field stands among them; and the text is
    the header, with the imports of the other fields, followed by their
    fragments: one value for each of them that is not embedded and has a
    recognised shape, and none for this field. *)
Theorem unrecognised_field_is_skipped_with_diagnostic
    (g : Generator) (typeName : string) (d : Ident * option Object)
    (fs1 fs2 : list Object) (field : Object) (st2 : Collected)
    (body : string) (r : result Output) :
  named typeName (defs (pkg g)) = [d] ->
  namedStruct (snd d) = Ok (fs1 ++ field :: fs2) ->
  Embedded field = false ->
  classify (Underlying (TypeOf field)) = None ->
  structLoop (fs1 ++ fs2) collected0 = Ok st2 ->
  fragments caseTo (values st2) = Ok body ->
  generate caseTo g typeName r ->
  (exists dir elem, Underlying (TypeOf field) = Chan dir elem)
  /\ (forall n bound, TypeOf field <> TypeParam n bound)
  /\ dynamicType (diagTyp (diagnosticOf field)) = "*types.Chan"
  /\ List.map (fun v => (originalName v, valueType v)) (values st2)
     = omap (fun f => pair (Name f) <$> categoryOf f) (fs1 ++ fs2)
  /\ exists importList,
       importList ≡ₚ elements (imports st2)
       /\ r = Ok {| outBuf := Execute (buf g) templateHeader
                                (headerData g typeName importList)
                              +:+ body;
                    outStdout :=
                      List.map diagnosticOf (List.filter unrecognised fs1)
                      ++ [diagnosticOf field]
                      ++ List.map diagnosticOf
                           (List.filter unrecognised fs2) |}.
Proof.
  intros Hd Hs He Hc Hloop Hbody Hrun.
  destruct (unrecognised_is_channel _ Hc) as (dir & elem & Hchan).
  split; [eauto|].
  split.
  { intros n bound E. rewrite E, type_parameter_is_interface in Hc.
    discriminate. }
  split; [cbn [diagnosticOf diagTyp]; rewrite Hchan; reflexivity|].
  split; [apply (structLoop_collected _ _ Hloop)|].
  pose proof (run_of_one_definition g typeName d _ r Hd Hs Hrun) as H.
  destruct (structLoop_unrecognised fs1 fs2 field collected0 st2 He Hc Hloop)
    as (st' & before & after & Hloop' & Hv & Hi & _ & _).
  rewrite Hloop' in H. destruct H as (importList & Hp & ->).
  exists importList. rewrite <- Hi. split; [exact Hp|].
  rewrite Hv, Hbody. cbn [bind]. f_equal. f_equal.
  rewrite (proj2 (structLoop_collected _ _ Hloop')).
  rewrite List.filter_app. cbn [List.filter].
  unfold unrecognised at 2. rewrite He, Hc. cbn [negb andb].
  rewrite List.map_app. reflexivity.
Qed.

End UnitFacts.

(** C8, as the claim states it, fails on a bare type parameter: in
    [type config[T any] struct { x T }] the underlying type of the type of
    [x] is the interface of the constraint, so that the field is an
    interface field like any other.  It is not skipped, nothing is
    printed, and every run writes its fragment. *)
Lemma type_parameter_field_is_generated :
  Embedded example.paramField = false
  /\ TypeOf example.paramField = TypeParam "T" (Interface [])
  /\ Underlying (TypeOf example.paramField) = Interface []
  /\ ~ skipped example.paramField
  /\ fieldStep example.paramField collected0
     = Ok {| values := [ mkValue "x" "T" interfaceType ];
             imports := ∅; stdout := [] |}
  /\ forall r,
       generate example.asciiOnly example.generatorGeneric "config" r ->
       r = Ok {| outBuf :=
                   Execute "" templateHeader
                     (headerData example.generatorGeneric "config" [])
                   +:+ "type xOption T" +:+ nl +:+
                   "func (o xOption) Apply(c *config ) {c.x = T(o)}" +:+ nl +:+
                   "func WithX(m T) Option { return xOption(m) }" +:+ nl +:+ nl;
                 outStdout := [] |}.
Proof.
  split; [reflexivity|]. split; [reflexivity|]. split; [reflexivity|].
  split; [|split; [reflexivity|]].
  - apply (categorised_not_skipped _ interfaceType).
    apply categorised_recognised; [reflexivity | reflexivity | discriminate].
  - intros r Hrun.
    pose proof (run_of_one_definition example.asciiOnly
                  example.generatorGeneric "config"
                  (example.typeDef 40 "config"
                     (example.tConfig [example.paramField]))
                  [example.paramField] r eq_refl eq_refl Hrun) as H.
    change (structLoop [example.paramField] collected0)
      with (Ok {| values := [ mkValue "x" "T" interfaceType ];
                  imports := ∅; stdout := [] |}) in H.
    cbn iota beta in H. destruct H as (importList & Hp & ->).
    cbn [imports] in Hp. rewrite elements_empty in Hp.
    apply Permutation_nil_r in Hp. subst importList.
    vm_compute. reflexivity.
Qed.


Lemma unrecognised_field_is_skipped_with_diagnostic_witness :
  (exists dir elem,
     Underlying (TypeOf example.chanField) = Chan dir elem)
  /\ (forall n bound, TypeOf example.chanField <> TypeParam n bound)
  /\ dynamicType (diagTyp (diagnosticOf example.chanField)) = "*types.Chan"
  /\ List.map (fun v => (originalName v, valueType v))
       [ mkValue "color" "string" baseType;
         mkValue "inter" "io.Reader" interfaceType ]
     = [ ("color", baseType); ("inter", interfaceType) ]
  /\ exists importList,
       importList ≡ₚ elements ({[ "io" ]} ∪ ∅ : gset string)
       /\ generateWith example.asciiOnly
            (example.generatorOf example.aroundChannel) "config"
            (defs (pkg (example.generatorOf example.aroundChannel)))
            example.ascending
          = Ok {| outBuf :=
                    Execute "" templateHeader
                      (headerData (example.generatorOf example.aroundChannel)
                                  "config" importList)
                    +:+ (fragmentText baseType "color" "color" "Color" "string"
                         +:+ fragmentText interfaceType "inter" "inter" "Inter"
                               "io.Reader");
                  outStdout := [] ++ [diagnosticOf example.chanField] ++ [] |}.
Proof.
  exact (unrecognised_field_is_skipped_with_diagnostic example.asciiOnly
           (example.generatorOf example.aroundChannel) "config"
           (example.typeDef 40 "config" (example.tConfig example.aroundChannel))
           [example.var "color" (Basic "string")] [example.interField]
           example.chanField
           {| values := [ mkValue "color" "string" baseType;
                          mkValue "inter" "io.Reader" interfaceType ];
              imports := {[ "io" ]} ∪ ∅; stdout := [] |}
           (fragmentText baseType "color" "color" "Color" "string"
            +:+ fragmentText interfaceType "inter" "inter" "Inter" "io.Reader")
           (generateWith example.asciiOnly
              (example.generatorOf example.aroundChannel) "config"
              (defs (pkg (example.generatorOf example.aroundChannel)))
              example.ascending)
           eq_refl eq_refl eq_refl eq_refl eq_refl eq_refl
           (generate_run example.asciiOnly
              (example.generatorOf example.aroundChannel) "config"
              (defs (pkg (example.generatorOf example.aroundChannel)))
              example.ascending
              (Permutation_refl _) (fun s => Permutation_refl _))).
Defined.
